(** * Video format selection and playlist range pipeline

    A shallow embedding of [src/utils/Video.js], [src/utils/Playlist.js] and
    [src/utils/YoutubeSearch.js], with the theorems that settle the
    specification's claims about them.

    Conventions of the embedding.
    - A JavaScript string is a [string], the bytes of its UTF-8 encoding
      (as a string literal is read). The regular expressions of the source
      only look for ASCII characters, so working on the bytes finds the
      same matches. [toLowerCase] changes the ASCII letters only: the
      sources compare a lowered string with ["text"] alone, and no
      character outside ASCII is lowered to one of its letters. [trim]
      removes the white space and the line terminators of ECMAScript, ASCII
      or not.
    - A JavaScript number that the code uses as a count or an ordinal is a
      [Z]; template literals print it in decimal (as JavaScript does below
      10^21).
    - An argument that the code receives is typed as its documentation
      types it; where the code inspects a value dynamically
      ([Array.isArray], [isNaN], [=== null], a default parameter), the
      embedding keeps the cases that the inspection tells apart.
    - [try { ... } catch (error) { ... }] is a computation in the
      [Completion] monad followed by a case analysis; a thrown value is
      represented by its [message].
    - A promise that is awaited at once is the value it resolves to: every
      [await] of the source is immediate and the code never runs two calls
      side by side.
    - The scraping libraries ([@distube/ytdl-core], [ytpl], [@distube/ytsr]),
      the regular-expression engine and the two constant tables that are
      not part of the sources are operations of type classes. *)

From Stdlib Require Import ZArith String Ascii List Bool DecimalString DecimalPos DecimalZ.
From stdpp Require Import base option list list_numbers gmap strings.

Local Open Scope Z_scope.

(** ** The JavaScript runtime, as far as the sources use it *)

Module JS.

(** *** Completions: a value, or a thrown error with its message *)

Inductive Completion (A : Type) : Type :=
| Normal (a : A)
| Throw (message : string).
Arguments Normal {A} a.
Arguments Throw {A} message.

#[global] Instance Completion_ret : MRet Completion := fun _ a => Normal a.
#[global] Instance Completion_bind : MBind Completion := fun _ _ f c =>
  match c with
  | Normal a => f a
  | Throw m => Throw m
  end.

(** [try { c } catch (error) { handler error.message }] *)
Definition try_catch {A} (c : Completion A) (handler : string → A) : A :=
  match c with
  | Normal a => a
  | Throw m => handler m
  end.

(** A JavaScript value that may also be [undefined] or [null]. *)
Inductive Nullable (A : Type) : Type :=
| Undefined
| Null
| Present (a : A).
Arguments Undefined {A}.
Arguments Null {A}.
Arguments Present {A} a.

(** [x != null]: false exactly for [null] and [undefined]. *)
Definition not_nullish {A} (x : Nullable A) : bool :=
  match x with
  | Present _ => true
  | _ => false
  end.

(** Values that reach the code where it inspects them dynamically
    ([Array.isArray], [Array.prototype.includes], default parameters). *)
#[warnings="-register-all"]
Inductive Value : Type :=
| VUndefined
| VNull
| VBool (b : bool)
| VNumber (z : Z)
| VString (s : string)
| VArray (elements : list Value)
| VObject.

(** A default parameter [p = d] takes [d] when the argument is
    [undefined], and only then. *)
Definition default_parameter (v d : Value) : Value :=
  match v with
  | VUndefined => d
  | _ => v
  end.

(** [array.includes(s)] for a string [s]: SameValueZero only equates a
    string with an equal string. *)
Definition same_string (s : string) (v : Value) : bool :=
  match v with
  | VString t => bool_decide (t = s)
  | _ => false
  end.

Definition includes (elements : list Value) (s : string) : bool :=
  existsb (same_string s) elements.

(** *** Strings *)

(** The line feed, [\n] in the source. *)
Definition LF : string := String (ascii_of_nat 10) EmptyString.

(** [`${n}`] for an integer [n]. *)
Definition String_of_Z (n : Z) : string := NilZero.string_of_int (Z.to_int n).

(** [parts.join(sep)] *)
Fixpoint Array_join (sep : string) (parts : list string) : string :=
  match parts with
  | [] => ""
  | [p] => p
  | p :: rest => p +:+ sep +:+ Array_join sep rest
  end.

(** [c.repeat(n)] *)
Fixpoint repeat_string (s : string) (n : nat) : string :=
  match n with
  | O => ""
  | S k => s +:+ repeat_string s k
  end.

Definition is_upper (c : ascii) : bool :=
  let n := N_of_ascii c in (65 <=? n)%N && (n <=? 90)%N.

Definition lower_char (c : ascii) : ascii :=
  if is_upper c then ascii_of_N (N_of_ascii c + 32) else c.

(** [s.toLowerCase()], on the ASCII letters. *)
Fixpoint toLowerCase (s : string) : string :=
  match s with
  | EmptyString => EmptyString
  | String c rest => String (lower_char c) (toLowerCase rest)
  end.

(** The UTF-8 encoding of a code point of the Basic Multilingual Plane. *)
Definition UTF8 (code : N) : string :=
  if (code <? 0x80)%N then String (ascii_of_N code) ""
  else if (code <? 0x800)%N then
    String (ascii_of_N (0xC0 + code / 0x40))
      (String (ascii_of_N (0x80 + code mod 0x40)) "")
  else
    String (ascii_of_N (0xE0 + code / 0x1000))
      (String (ascii_of_N (0x80 + code / 0x40 mod 0x40))
         (String (ascii_of_N (0x80 + code mod 0x40)) "")).

(** The code points that [trim] removes: [WhiteSpace] (TAB, VT, FF, the
    byte order mark U+FEFF and the space separators of Unicode) and
    [LineTerminator] (LF, CR, U+2028, U+2029) of ECMAScript. *)
Definition WhiteSpace : list N :=
  [0x9; 0xA; 0xB; 0xC; 0xD; 0x20; 0xA0; 0x1680; 0x2000; 0x2001; 0x2002; 0x2003;
   0x2004; 0x2005; 0x2006; 0x2007; 0x2008; 0x2009; 0x200A; 0x2028; 0x2029;
   0x202F; 0x205F; 0x3000; 0xFEFF]%N.

(** [s] without the white space that it starts with; [read] is the order
    in which the bytes of a character come: [id] from the start of a
    string, [String.rev] from its end. A character of [WhiteSpace] has at
    most three bytes, and no encoding of a character starts or ends with
    the encoding of another. *)
Fixpoint skip_white_space (read : string → string) (s : string) : string :=
  let white (bytes : string) : bool :=
    existsb (λ code, String.eqb bytes (read (UTF8 code))) WhiteSpace in
  match s with
  | EmptyString => s
  | String c1 rest1 =>
      if white (String c1 "") then skip_white_space read rest1
      else
        match rest1 with
        | EmptyString => s
        | String c2 rest2 =>
            if white (String c1 (String c2 "")) then skip_white_space read rest2
            else
              match rest2 with
              | EmptyString => s
              | String c3 rest3 =>
                  if white (String c1 (String c2 (String c3 ""))) then
                    skip_white_space read rest3
                  else s
              end
        end
  end.

(** [s.trim()] *)
Definition trim (s : string) : string :=
  String.rev (skip_white_space String.rev (String.rev (skip_white_space id s))).

(** Is [p] a prefix of [s]? With [ci], letters match in either case (the
    [i] flag of a regular expression). *)
Fixpoint starts_with (ci : bool) (p s : string) : bool :=
  match p, s with
  | EmptyString, _ => true
  | String a p', String b s' =>
      (if ci then bool_decide (lower_char a = lower_char b)
       else bool_decide (a = b))
      && starts_with ci p' s'
  | String _ _, EmptyString => false
  end.

Fixpoint drop_string (n : nat) (s : string) : string :=
  match n, s with
  | O, _ => s
  | S k, String _ rest => drop_string k rest
  | S _, EmptyString => EmptyString
  end.

(** [s.split(sep)[0]] for a non-empty [sep]: the text before the first
    occurrence of [sep], the whole of [s] when there is none. *)
Fixpoint split_first (sep s : string) : string :=
  match s with
  | EmptyString => EmptyString
  | String c rest =>
      if starts_with false sep s then EmptyString
      else String c (split_first sep rest)
  end.

(** *** [String.prototype.replace] with a global regular expression *)

(** The replacement text for one match (GetSubstitution), for a pattern
    without capture groups: [$$] is a dollar sign, [$&] the matched text,
    [$`] the text before the match, [$'] the text after it; every other
    character, a dollar sign before anything else included, stands for
    itself. *)
Fixpoint substitution (matched before after template : string) : string :=
  match template with
  | EmptyString => EmptyString
  | String "$" (String "$" rest) =>
      String "$" (substitution matched before after rest)
  | String "$" (String "&" rest) =>
      matched +:+ substitution matched before after rest
  | String "$" (String "`" rest) =>
      before +:+ substitution matched before after rest
  | String "$" (String "'" rest) =>
      after +:+ substitution matched before after rest
  | String c rest => String c (substitution matched before after rest)
  end.

Fixpoint take_string (n : nat) (s : string) : string :=
  match n, s with
  | S k, String c rest => String c (take_string k rest)
  | _, _ => EmptyString
  end.

(** [s.replace(/lit/gi, template)] for a literal [lit] of at least one
    character: the matches are found from left to right and do not
    overlap. [before] is the text already passed (for [$`]) and [skip]
    counts the characters of the current match still to be passed. *)
Fixpoint replace_go (lit template before s : string) (skip : nat) : string :=
  match s with
  | EmptyString => EmptyString
  | String c rest =>
      let before' := before +:+ String c EmptyString in
      match skip with
      | S k => replace_go lit template before' rest k
      | O =>
          if starts_with true lit s then
            let n := String.length lit in
            substitution (take_string n s) before (drop_string n s) template
            +:+ replace_go lit template before' rest (Nat.pred n)
          else String c (replace_go lit template before' rest O)
      end
  end.

Definition replace_all_ci (lit template s : string) : string :=
  replace_go lit template "" s O.

(** *** Objects used as ordered maps *)

(** The own properties of an object, in creation order. *)
Definition Object (V : Type) : Type := list (string * V).

Fixpoint parse_digits (acc : N) (s : string) : option N :=
  match s with
  | EmptyString => Some acc
  | String c rest =>
      match Ascii.is_nat c with
      | Some d => parse_digits (acc * 10 + N.of_nat d)%N rest
      | None => None
      end
  end.

(** An array index is a key that is the canonical decimal form of an
    integer from 0 to 2^32 - 2. *)
Definition array_index (key : string) : option N :=
  match key with
  | EmptyString => None
  | String "0" EmptyString => Some 0%N
  | String "0" _ => None
  | _ =>
      match parse_digits 0 key with
      | Some n => if (n <? 4294967295)%N then Some n else None
      | None => None
      end
  end.

Fixpoint Object_set {V} (key : string) (v : V) (o : Object V) : Object V :=
  match o with
  | [] => [(key, v)]
  | (k, w) :: rest =>
      if bool_decide (k = key) then (k, v) :: rest
      else (k, w) :: Object_set key v rest
  end.

Fixpoint insert_by_index {V} (n : N) (e : string * V)
    (sorted : list (N * (string * V))) : list (N * (string * V)) :=
  match sorted with
  | [] => [(n, e)]
  | (m, f) :: rest =>
      if (n <? m)%N then (n, e) :: sorted
      else (m, f) :: insert_by_index n e rest
  end.

(** [Object.entries(o)]: the array indices in ascending order, then the
    other keys in creation order. *)
Definition Object_entries {V} (o : Object V) : list (string * V) :=
  let indexed :=
    foldr (λ e acc,
             match array_index e.1 with
             | Some n => insert_by_index n e acc
             | None => acc
             end) [] o in
  (snd <$> indexed)
  ++ filter (λ e, array_index e.1 = None) o.

(** [{ ...a, ...b }] *)
Definition Object_spread {V} (a b : Object V) : Object V :=
  foldl (λ o e, Object_set e.1 e.2 o) [] (Object_entries a ++ Object_entries b).

(** *** Regular expressions with the [g] flag *)

(** What the engine gives for a compiled pattern: [m s i] is the end of
    the match of the pattern that starts at offset [i] of [s], if there
    is one. *)
Definition Matcher : Type := string → nat → option nat.

(** The search of RegExpBuiltinExec: try offset [i], then the following
    ones, up to the end of the string. [fuel] is the number of offsets
    left to try. *)
Fixpoint search (m : Matcher) (s : string) (fuel i : nat) : option nat :=
  match fuel with
  | O => None
  | S k =>
      match m s i with
      | Some e => Some e
      | None => search m s k (S i)
      end
  end.

(** [regExp.test(s)] for a regular expression with the [g] flag whose
    [lastIndex] is [lastIndex]: the result and the new [lastIndex]. The
    search starts at [lastIndex]; a match leaves [lastIndex] at its end, a
    failure resets it to 0. *)
Definition RegExp_test (m : Matcher) (lastIndex : nat) (s : string) : bool * nat :=
  match search m s (S (String.length s) - lastIndex) lastIndex with
  | Some e => (true, e)
  | None => (false, O)
  end.

(** [new RegExp(source, flags)]: the matcher of the pattern, or the
    message of the [SyntaxError]. *)
Class RegExpEngine : Type :=
  RegExp_new : string → string → Completion Matcher.


(** The response envelope of every public operation. The source names the
    payload field [VideoData], [PlaylistData], [numberVideo] or [results],
    depending on the operation; [None] is [null]. *)
Record Response (T : Type) : Type := {
  data : option T;
  err : bool;
  err_msg : string;
}.
Arguments data {T} r.
Arguments err {T} r.
Arguments err_msg {T} r.

Definition success {T} (payload : T) : Response T :=
  {| data := Some payload; err := false; err_msg := "" |}.

Definition failure {T} (message : string) : Response T :=
  {| data := None; err := true; err_msg := message |}.

End JS.
Export JS.

(** ** The collaborators and the constants *)

(** A raw stream-format descriptor of [@distube/ytdl-core]. [mimeType] is
    [None] when the descriptor has no such key. [hasVideo] is the
    library's own video-track flag, which the code never reads. *)
Module RawFormat.
Record t : Type := {
  mimeType : option string;
  qualityLabel : Nullable string;
  hasAudio : bool;
  hasVideo : bool;
  url : string;
}.
End RawFormat.

Module VideoDetails.
Record t : Type := {
  videoId : string;
  title : string;
  video_url : string;
}.
End VideoDetails.

Module RawVideoInfo.
Record t : Type := {
  videoDetails : VideoDetails.t;
  formats : list RawFormat.t;
}.
End RawVideoInfo.

(** [getInfo] of [@distube/ytdl-core]. *)
Class VideoInfoProvider : Type :=
  ytdl_getInfo : string → Completion RawVideoInfo.t.

(** [src/constants/default_qualitys] and [src/constants/all_types], which
    are not among the sources. *)
Class Constants : Type := {
  D_Q : Object bool;
  ALL_TYPES : list Value;
}.

(** ** [src/utils/Video.js] *)

Module Video.

Record FormatRecord : Type := {
  title : string;
  mimeType : string;
  hasVideo : bool;
  hasAudio : bool;
  type : string;
  quality : Nullable string;
  url : string;
}.

(** [VideoData]: the structured object, or its text form. *)
Inductive VideoData : Type :=
| VideoObject (id title video_url : string) (formats : list FormatRecord)
| VideoText (text : string).

(** A video number: a number, or the property key (a string) that
    [Playlist.#add_download_links] passes on. The code only prints it. *)
Inductive Ordinal : Type :=
| Number (n : Z)
| Key (key : string).

(** [`${videoNumber}`] *)
Definition String_of_Ordinal (videoNumber : Ordinal) : string :=
  match videoNumber with
  | Number n => String_of_Z n
  | Key key => key
  end.

Record GetInfoOptions : Type := {
  VideoNumber : option Ordinal;
  VideoDataType : option string;
  types : option Value;
  qualitys : option (Object bool);
}.

Definition no_options : GetInfoOptions :=
  {| VideoNumber := None; VideoDataType := None; types := None; qualitys := None |}.

(** [videoTitle.replace(/([\/|#])/gi, "~")] *)
Fixpoint sanitize (videoTitle : string) : string :=
  match videoTitle with
  | EmptyString => EmptyString
  | String c rest =>
      String (if bool_decide (c = "/"%char) || bool_decide (c = "|"%char)
                 || bool_decide (c = "#"%char)
              then "~"%char else c) (sanitize rest)
  end.

(** The callback of [.map] in [#prepare_formats], for a descriptor whose
    [mimeType] is [mimeType]. *)
Definition prepare_format (videoNumber : Ordinal) (videoTitle : string)
    (format : RawFormat.t) (mimeType : string) : FormatRecord :=
  let quality := RawFormat.qualityLabel format in
  let hasAudio := RawFormat.hasAudio format in
  let str_mimeType := split_first "; " mimeType in
  let hasVideo := not_nullish quality in
  let type :=
    if hasVideo && hasAudio then "video and audio"
    else if hasVideo then "video"
    else if hasAudio then "audio"
    else "others" in
  let title :=
    str_mimeType +:+ " ["
    +:+ match quality with Present q => q | _ => "" end
    +:+ "] [" +:+ (if hasAudio then "+audio" else "-audio") +:+ "]" in
  let url :=
    replace_all_ci "/videoplayback?"
      ("/videoplayback/" +:+ String_of_Ordinal videoNumber +:+ " - "
       +:+ videoTitle +:+ "?")
      (RawFormat.url format) in
  {| title := title; mimeType := mimeType; hasVideo := hasVideo;
     hasAudio := hasAudio; type := type; quality := quality; url := url |}.

(** [#prepare_formats]: [.filter] keeps the descriptors that have the key
    [mimeType], [.map] builds a record from each of them. *)
Definition prepare_formats (formats : list RawFormat.t) (videoNumber : Ordinal)
    (videoTitle : string) : list FormatRecord :=
  let videoTitle := sanitize videoTitle in
  omap (λ format,
          prepare_format videoNumber videoTitle format <$> RawFormat.mimeType format)
       formats.

(** [#filter_formats_by_types] *)
Definition filter_formats_by_types (formats : list FormatRecord)
    (types : Value) : list FormatRecord :=
  match types with
  | VArray elements => filter (λ format, includes elements (type format)) formats
  | _ => formats
  end.

(** [formats.filter((format) => regExp.test(format.title))]: the callback
    runs on the elements in order, on the one [regExp] object, whose
    [lastIndex] each call leaves for the next. *)
Fixpoint filter_test (regExp : Matcher) (lastIndex : nat)
    (formats : list FormatRecord) : list FormatRecord :=
  match formats with
  | [] => []
  | format :: rest =>
      let '(found, lastIndex') := RegExp_test regExp lastIndex (title format) in
      if found then format :: filter_test regExp lastIndex' rest
      else filter_test regExp lastIndex' rest
  end.

Section Video.
Context `{!VideoInfoProvider, !RegExpEngine, !Constants}.

Definition enabled_qualities (qualitys : option (Object bool)) : list string :=
  let qualitys := Object_spread D_Q (default [] qualitys) in
  fst <$> filter (λ entry, entry.2 = true) (Object_entries qualitys).

(** [#filter_formats_by_qualitys] *)
Definition filter_formats_by_qualitys (formats : list FormatRecord)
    (qualitys : option (Object bool)) : Completion (list FormatRecord) :=
  let enabledQualities := Array_join "|" (enabled_qualities qualitys) in
  if bool_decide (enabledQualities = "") then Normal formats
  else
    regExp ← RegExp_new ("(" +:+ enabledQualities +:+ ")") "gi";
    Normal (filter_test regExp 0 formats).

(** [#data_to_text] *)
Definition data_to_text (id title video_url : string)
    (formats : list FormatRecord) : string :=
  let separator := repeat_string "-" 100 in
  let header :=
    "ID          : " +:+ id +:+ LF +:+ "Title       : " +:+ title +:+ LF
    +:+ "Youtube Url : " +:+ video_url in
  let formattedFormats :=
    Array_join (LF +:+ LF)
      ((λ format,
          "Type : " +:+ Video.title format +:+ LF +:+ "Url  : " +:+ url format)
       <$> formats) in
  header +:+ LF +:+ separator +:+ LF +:+ LF +:+ formattedFormats.

(** The steps of [getInfo] inside its [try]: fetch, build, filter by
    type, filter by quality. *)
Definition filtered_formats (url_ : string) (VideoNumber : Ordinal) (types : Value)
    (qualitys : option (Object bool))
    : Completion (VideoDetails.t * list FormatRecord) :=
  info ← ytdl_getInfo url_;
  let details := RawVideoInfo.videoDetails info in
  let formats :=
    prepare_formats (RawVideoInfo.formats info) VideoNumber
      (VideoDetails.title details) in
  let formats := filter_formats_by_types formats types in
  formats ← filter_formats_by_qualitys formats qualitys;
  Normal (details, formats).

(** [Video.main_getInfo] *)
Definition main_getInfo (url_ : string) : Response RawVideoInfo.t :=
  try_catch (info ← ytdl_getInfo url_; Normal (success info))
    (λ message, failure message).

(** [Video.getInfo]. An option that [getInfoOptions] does not have takes
    its value in [MAIN_GET_INFO_OPTIONS]. *)
Definition getInfo (url_ : string) (getInfoOptions : GetInfoOptions)
    : Response VideoData :=
  let VideoNumber := default (Number 1) (VideoNumber getInfoOptions) in
  let VideoDataType := default "json" (VideoDataType getInfoOptions) in
  let types := default (VArray ALL_TYPES) (types getInfoOptions) in
  let qualitys := Some (default D_Q (qualitys getInfoOptions)) in
  let VideoDataType :=
    let lowered := toLowerCase (trim VideoDataType) in
    if bool_decide (lowered = "") then "json" else lowered in
  try_catch
    ('(details, formats) ← filtered_formats url_ VideoNumber types qualitys;
     let id := VideoDetails.videoId details in
     let title := VideoDetails.title details in
     let video_url := VideoDetails.video_url details in
     let VideoData :=
       if bool_decide (VideoDataType = "text")
       then VideoText (data_to_text id title video_url formats)
       else VideoObject id title video_url formats in
     Normal (success VideoData))
    (λ message, failure ("Failed to get video info: " +:+ message)).

(** [Video.getDownloadLink]. [videoNumber] is [None] and [types] is
    [VUndefined] when the caller leaves the argument out. *)
Definition getDownloadLink (videoUrl : string) (videoNumber : option Z)
    (types : Value) (qualitys : option (Object bool)) : Response string :=
  let videoNumber := default 1 videoNumber in
  let types := default_parameter types (VArray [VString "video and audio"]) in
  let qualitys := default [] qualitys in
  let contextInfo :=
    "| N: " +:+ String_of_Z videoNumber +:+ " | url: " +:+ videoUrl in
  try_catch
    (let response :=
       getInfo videoUrl
         {| VideoNumber := Some (Number videoNumber); VideoDataType := None;
            types := Some types; qualitys := Some qualitys |} in
     if err response then Throw (err_msg response)
     else
       match data response with
       | Some (VideoObject _ _ _ formats) =>
           match formats with
           | [] => Normal (success ("No download link found " +:+ contextInfo))
           | first :: _ => Normal (success (url first))
           end
       | Some (VideoText _) =>
           Throw "Cannot read properties of undefined (reading 'length')"
       | None =>
           Throw "Cannot destructure property 'formats' of 'VideoData' as it is null."
       end)
    (λ message,
       failure ("ERROR: In Get Download Link " +:+ contextInfo
                +:+ " | ERROR MESSAGE: " +:+ message)).

(** The argument of [getDownloadLinkForMany]: one URL or an array. *)
Inductive VideoUrls : Type :=
| OneUrl (videoUrl : string)
| ManyUrls (videoUrls : list string).

(** The loop of [getDownloadLinkForMany] from index [i] on: one slot for
    each remaining URL. A slot that is [null] would be joined as the empty
    string. *)
Fixpoint links_from (i : Z) (videoUrls : list string) (types : Value)
    (qualitys : option (Object bool)) : list string :=
  match videoUrls with
  | [] => []
  | videoUrl :: rest =>
      let response := getDownloadLink videoUrl (Some (i + 1)) types qualitys in
      (if err response then err_msg response else default "" (data response))
      :: links_from (i + 1) rest types qualitys
  end.

(** [Video.getDownloadLinkForMany] *)
Definition getDownloadLinkForMany (videoUrls : VideoUrls) (types : Value)
    (qualitys : option (Object bool)) : Response string :=
  let types := default_parameter types (VArray [VString "video and audio"]) in
  let qualitys := default [] qualitys in
  try_catch
    (let videoUrls :=
       match videoUrls with
       | OneUrl videoUrl => [videoUrl]
       | ManyUrls videoUrls => videoUrls
       end in
     let links := links_from 0 videoUrls types (Some qualitys) in
     Normal (success (Array_join (LF +:+ LF) links)))
    (λ message,
       failure ("Error in Get Dowanload Link For Many : " +:+ message)).

End Video.
End Video.

(** ** [src/utils/Playlist.js] *)

Module RawItem.
Record t : Type := {
  id : string;
  title : string;
  url : string;
}.
End RawItem.

Module RawPlaylist.
Record t : Type := {
  id : string;
  title : string;
  items : list RawItem.t;
  estimatedItemCount : Z;
}.
End RawPlaylist.

(** [ytpl(url, { limit })]; the limit is [None] when the call gives no
    options. *)
Class PlaylistInfoProvider : Type :=
  ytpl : string → option Value → Completion RawPlaylist.t.

Module Playlist.

(** The [formats] that [#add_download_links] stores in an entry. *)
Inductive EntryFormats : Type :=
| Formats (formats : list Video.FormatRecord)
| FormatsError (message : string).

Record PlaylistVideo : Type := {
  id : string;
  title : string;
  video_url : string;
  formats : option EntryFormats;
}.

Module PlaylistData.
Record t : Type := {
  id : string;
  title : string;
  url : string;
  number_videos : nat;
  videos : gmap string PlaylistVideo;
}.
End PlaylistData.

(** A [from] or [to] argument, as the code sees it through [=== null],
    [isNaN] and [Number]: [null]; a value whose conversion to a number is
    [NaN] ([undefined], [NaN], a string that is not a numeral, ...); a
    value whose conversion to a number is the integer [n]. *)
Inductive RangeArg : Type :=
| RNull
| RNotNumber
| RNumber (n : Z).

Record PreparedRange : Type := {
  succ : bool;
  msg_err : string;
  from : option Z;
  to : option Z;
}.

Definition range_error (message : string) : PreparedRange :=
  {| succ := false; msg_err := message; from := None; to := None |}.

(** [x === null || isNaN(x) ? d : Number(x)] *)
Definition normalize (x : RangeArg) (d : Z) : Z :=
  match x with
  | RNumber n => n
  | _ => d
  end.

(** The part of [#prepare_from_to] that follows the fetch of the count
    (the specification's [prepareRange]). *)
Definition prepareRange (numberVideo : Z) (from to : RangeArg) : PreparedRange :=
  let normalizedFrom := normalize from 1 in
  let normalizedTo := normalize to numberVideo in
  if (normalizedFrom <=? 0) || (normalizedTo <=? 0) then
    range_error ("ERROR: From '" +:+ String_of_Z normalizedFrom +:+ "' and To '"
                 +:+ String_of_Z normalizedTo +:+ "' must be greater than 0")
  else if normalizedTo <? normalizedFrom then
    range_error ("ERROR: From '" +:+ String_of_Z normalizedFrom
                 +:+ "' must be less than or equal to To '"
                 +:+ String_of_Z normalizedTo +:+ "'")
  else if (numberVideo <? normalizedFrom) || (numberVideo <? normalizedTo) then
    range_error ("ERROR: From '" +:+ String_of_Z normalizedFrom +:+ "' and To '"
                 +:+ String_of_Z normalizedTo
                 +:+ "' must not be greater than the number of videos in playlist ("
                 +:+ String_of_Z numberVideo +:+ ")")
  else
    {| succ := true; msg_err := ""; from := Some normalizedFrom;
       to := Some normalizedTo |}.

(** What [addLink] is given: a placeholder text, or the whole response of
    [Video.getDownloadLink]. *)
Inductive Link : Type :=
| LinkText (text : string)
| LinkResponse (response : Response string).

(** [`${link}`] *)
Definition String_of_Link (link : Link) : string :=
  match link with
  | LinkText text => text
  | LinkResponse _ => "[object Object]"
  end.

(** [downloadLinks]: a string in text mode, an array otherwise. *)
Inductive DownloadLinks : Type :=
| LinksText (text : string)
| LinksArray (links : list Link).

Definition addLink (downloadLinks : DownloadLinks) (link : Link) : DownloadLinks :=
  match downloadLinks with
  | LinksText text => LinksText (text +:+ String_of_Link link +:+ LF)
  | LinksArray links => LinksArray (links ++ [link])
  end.

Record GetDownloadsLinksOptions : Type := {
  VideoDataType : option string;
  types : option Value;
  opt_from : option RangeArg;
  opt_to : option RangeArg;
  qualitys : option (Object bool);
}.

Definition no_options : GetDownloadsLinksOptions :=
  {| VideoDataType := None; types := None; opt_from := None; opt_to := None;
     qualitys := None |}.

(** [items.forEach((video, index) => { PlaylistData.videos[index + 1] = ... })],
    from index [index] on. *)
Fixpoint add_videos (index : nat) (items : list RawItem.t)
    (videos : gmap string PlaylistVideo) : gmap string PlaylistVideo :=
  match items with
  | [] => videos
  | video :: rest =>
      add_videos (S index) rest
        (<[String_of_Z (Z.of_nat index + 1) :=
             {| id := RawItem.id video; title := RawItem.title video;
                video_url := RawItem.url video; formats := None |}]> videos)
  end.

Section Playlist.
Context `{!VideoInfoProvider, !PlaylistInfoProvider, !RegExpEngine, !Constants}.

(** [Playlist.main_ytpl]; [isNaN(limit)] is false for a number. *)
Definition main_ytpl (url_ : string) (limit : option Z) : Response RawPlaylist.t :=
  let limit := default 1 limit in
  try_catch
    (PlaylistData ← ytpl url_ (Some (VNumber limit)); Normal (success PlaylistData))
    (λ message, failure message).

(** [Playlist.numberVideo]; [parseInt] of an integer count is that
    count. *)
Definition numberVideo (url_ : string) : Response Z :=
  try_catch
    (playlist ← ytpl url_ None;
     Normal (success (RawPlaylist.estimatedItemCount playlist)))
    (λ message, failure message).

(** [#add_download_links]: the entries are visited in the order of
    [Object.entries]. *)
Definition add_download_links (PlaylistData : PlaylistData.t) : PlaylistData.t :=
  let videos :=
    foldl (λ videos entry,
             let videoNumber : string := entry.1 in
             let response :=
               Video.getInfo (video_url entry.2)
                 {| Video.VideoNumber := Some (Video.Key videoNumber);
                    Video.VideoDataType := None; Video.types := None;
                    Video.qualitys := None |} in
             let formats :=
               match err response, data response with
               | false, Some (Video.VideoObject _ _ _ formats) => Formats formats
               | _, _ =>
                   FormatsError ("Error in Get Video Info | ERROR MESSAGE: "
                                 +:+ err_msg response)
               end in
             alter (λ video,
                      {| id := id video; title := title video;
                         video_url := video_url video; formats := Some formats |})
                   videoNumber videos)
          (PlaylistData.videos PlaylistData)
          (Object_entries (map_to_list (PlaylistData.videos PlaylistData))) in
  {| PlaylistData.id := PlaylistData.id PlaylistData;
     PlaylistData.title := PlaylistData.title PlaylistData;
     PlaylistData.url := PlaylistData.url PlaylistData;
     PlaylistData.number_videos := PlaylistData.number_videos PlaylistData;
     PlaylistData.videos := videos |}.

(** [Playlist.getInfo] *)
Definition getInfo (url_ : string) (withDownloadLinks : bool)
    : Response PlaylistData.t :=
  try_catch
    (data ← ytpl url_ (Some (VString "Infinity"));
     let items := RawPlaylist.items data in
     let PlaylistData :=
       {| PlaylistData.id := RawPlaylist.id data;
          PlaylistData.title := RawPlaylist.title data;
          PlaylistData.url := url_;
          PlaylistData.number_videos := length items;
          PlaylistData.videos := add_videos 0 items ∅ |} in
     let PlaylistData :=
       if withDownloadLinks then add_download_links PlaylistData
       else PlaylistData in
     Normal (success PlaylistData))
    (λ message, failure ("Failed to get playlist info: " +:+ message)).

(** [#prepare_from_to] *)
Definition prepare_from_to (url_ : string) (from to : RangeArg) : PreparedRange :=
  let response := numberVideo url_ in
  match err response, data response with
  | false, Some numberVideo => prepareRange numberVideo from to
  | _, _ =>
      range_error ("Error in Get Number Videos in Playlist | ERROR MESSAGE: "
                   +:+ err_msg response)
  end.

(** One turn of the loop of [getDownloadsLinks]. [videoUrl] is [None]
    ([null]) when the playlist has no entry [videoIndex]; [if (videoUrl)]
    takes the first branch for a string that is not empty. *)
Definition download_step (videos : gmap string PlaylistVideo) (types : Value)
    (qualitys : Object bool) (downloadLinks : DownloadLinks) (videoIndex : Z)
    : DownloadLinks :=
  let videoUrl : option string :=
    video_url <$> videos !! String_of_Z videoIndex in
  match videoUrl with
  | Some (String c rest) =>
      let downloadResult :=
        Video.getDownloadLink (String c rest) (Some videoIndex) types
          (Some qualitys) in
      addLink downloadLinks (LinkResponse downloadResult)
  | _ =>
      addLink downloadLinks
        (LinkText ("Video URL not found | N: " +:+ String_of_Z videoIndex))
  end.

(** [Playlist.getDownloadsLinks]. An option that [options] does not have
    takes its value in [GET_DOWNLOADS_LINKS_OPTIONS]. *)
Definition getDownloadsLinks (url_ : string) (options : GetDownloadsLinksOptions)
    : Response DownloadLinks :=
  let VideoDataType := default "json" (VideoDataType options) in
  let types := default (VArray [VString "video and audio"]) (types options) in
  let initialFrom := default RNull (opt_from options) in
  let initialTo := default RNull (opt_to options) in
  let qualitys := default D_Q (qualitys options) in
  let responseFormat :=
    let lowered := trim (toLowerCase VideoDataType) in
    if bool_decide (lowered = "") then "json" else lowered in
  let range := prepare_from_to url_ initialFrom initialTo in
  match succ range, from range, to range with
  | true, Some from, Some to =>
      try_catch
        (let response := getInfo url_ false in
         PlaylistData ←
           (if err response then
              Throw ("Error in download playlist data: " +:+ err_msg response)
            else
              match data response with
              | Some PlaylistData => Normal PlaylistData
              | None => Throw "Cannot read properties of null (reading 'videos')"
              end);
         let downloadLinks :=
           if bool_decide (responseFormat = "text") then LinksText ""
           else LinksArray [] in
         let downloadLinks :=
           foldl (download_step (PlaylistData.videos PlaylistData) types qualitys)
             downloadLinks (seqZ from (to - from + 1)) in
         Normal (success downloadLinks))
        (λ message, failure message)
  | _, _, _ => failure (msg_err range)
  end.

End Playlist.
End Playlist.

(** ** [src/utils/YoutubeSearch.js] *)

(** The payloads of the search operations are built with helpers of
    [@el-zazo/main-utils] from the items of [@distube/ytsr]; neither is
    part of the sources. The operations are embedded over abstract items:
    what is modelled is which step can throw and what each operation
    returns then. *)
Module YoutubeSearch.

Record Results (Item : Type) : Type := {
  number_items : nat;
  items : list Item;
}.
Arguments number_items {Item} r.
Arguments items {Item} r.

(** [for (const x of xs) { ys.push(f(x)) }] and [xs.map(f)] for an [f] that
    may throw: the first error ends the loop. *)
Fixpoint for_each {A B} (f : A → Completion B) (xs : list A)
    : Completion (list B) :=
  match xs with
  | [] => Normal []
  | x :: rest => y ← f x; ys ← for_each f rest; Normal (y :: ys)
  end.

Definition dquote : string := String (ascii_of_nat 34) EmptyString.

Section YoutubeSearch.
Context `{!VideoInfoProvider, !PlaylistInfoProvider}.
Context {RawResult RawItem VideoItem PlaylistFields PlaylistItem Recommendations : Type}.

(** [ytsr(query, { type, limit })] and the [items] of its result. *)
Context (ytsr : string → string → option Z → Completion RawResult).
Context (raw_items : RawResult → Completion (list RawItem)).

(** The body of the [.map] callback of [searchVideos]; it throws when the
    item has no [author]. *)
Context (video_item : RawItem → Completion VideoItem).

(** The two destructurings of the loop body of [searchPlaylists], the
    [url] they read, and the item built once the count is known. *)
Context (playlist_fields : RawItem → Completion PlaylistFields).
Context (playlist_url : PlaylistFields → string).
Context (playlist_item : PlaylistFields → option Z → PlaylistItem).

(** [#prepareOriginVideoInfo] and [#prepareRecommendations] over the
    result of [Video.main_getInfo]. *)
Context (prepare_results : RawVideoInfo.t → Completion Recommendations).

(** [YoutubeSearch.main_ytsr] *)
Definition main_ytsr (type query : string) : Response RawResult :=
  try_catch (results ← ytsr query type None; Normal (success results))
    (λ message, failure message).

(** [YoutubeSearch.searchVideos] *)
Definition searchVideos (query : string) : Response (Results VideoItem) :=
  try_catch
    (result ← ytsr query "video" (Some 100);
     allItems ← raw_items result;
     items ← for_each video_item allItems;
     Normal (success {| number_items := length items; items := items |}))
    (λ message, failure ("Failed to search videos: " +:+ message)).

(** [YoutubeSearch.searchPlaylists] *)
Definition searchPlaylists (query : string) : Response (Results PlaylistItem) :=
  try_catch
    (result ← ytsr query "playlist" None;
     playlists ← raw_items result;
     items ←
       for_each (λ playlist,
                   fields ← playlist_fields playlist;
                   let numberVideo :=
                     data (Playlist.numberVideo (playlist_url fields)) in
                   Normal (playlist_item fields numberVideo))
                playlists;
     Normal (success {| number_items := length items; items := items |}))
    (λ message, failure ("Failed to search playlists: " +:+ message)).

(** [YoutubeSearch.search] *)
Definition search (type query : string)
    : Response (Results VideoItem + Results PlaylistItem) :=
  let wrap {A B} (f : A → B) (r : Response A) : Response B :=
    {| data := f <$> data r; err := err r; err_msg := err_msg r |} in
  if bool_decide (type = "video") then wrap inl (searchVideos query)
  else if bool_decide (type = "playlist") then wrap inr (searchPlaylists query)
  else
    failure ("Invalid search type: " +:+ type +:+ ". Must be " +:+ dquote
             +:+ "video" +:+ dquote +:+ " or " +:+ dquote +:+ "playlist"
             +:+ dquote +:+ ".").

(** [YoutubeSearch.videoAndRecommendations] *)
Definition videoAndRecommendations (url_ : string) : Response Recommendations :=
  try_catch
    (let response := Video.main_getInfo url_ in
     if err response then
       Normal {| data := None; err := err response; err_msg := err_msg response |}
     else
       match data response with
       | Some VideoData => results ← prepare_results VideoData; Normal (success results)
       | None => Throw "Cannot read properties of null (reading 'videoDetails')"
       end)
    (λ message,
       failure ("Failed to get video and recommendations: " +:+ message)).

End YoutubeSearch.
End YoutubeSearch.

(** ** A regular-expression engine for alternations of plain words *)

(** The patterns that [#filter_formats_by_qualitys] builds from quality
    labels such as [720p] are of the form [(w1|w2|...)], where every [wi]
    is made of letters and digits. This engine implements exactly these
    patterns; it is used to run the code on concrete inputs. *)
Module PlainWords.

Definition is_word_char (c : ascii) : bool :=
  let n := N_of_ascii c in
  ((48 <=? n) && (n <=? 57) || (65 <=? n) && (n <=? 90)
   || (97 <=? n) && (n <=? 122))%N.

(** The words between the bars of [body]; [current] is the word being
    read, reversed. [None] when a character is neither a bar nor a word
    character. *)
Fixpoint words_between_bars (current body : string) : option (list string) :=
  match body with
  | EmptyString => Some [String.rev current]
  | String c rest =>
      if bool_decide (c = "|"%char) then
        (String.rev current ::.) <$> words_between_bars "" rest
      else if is_word_char c then words_between_bars (String c current) rest
      else None
  end.

(** The alternatives of the pattern [(w1|w2|...)]. *)
Definition alternatives (source : string) : option (list string) :=
  match source with
  | String "(" rest =>
      match String.rev rest with
      | String ")" body => words_between_bars "" (String.rev body)
      | _ => None
      end
  | _ => None
  end.

(** The match of an alternation at offset [i]: the first alternative, in
    the order of the pattern, that the text at [i] starts with. *)
Definition match_at (ci : bool) (alts : list string) : Matcher := λ s i,
  (λ alt, (i + String.length alt)%nat)
  <$> List.find (λ alt, starts_with ci alt (drop_string i s)) alts.

Fixpoint has_char (c : ascii) (s : string) : bool :=
  match s with
  | EmptyString => false
  | String d rest => bool_decide (c = d) || has_char c rest
  end.

#[export] Instance engine : RegExpEngine := λ source flags,
  match alternatives source with
  | Some alts => Normal (match_at (has_char "i" flags) alts)
  | None => Throw ("Invalid regular expression: /" +:+ source +:+ "/")
  end.

End PlainWords.

(** ** The constants of the documentation *)

(** Modelled from the spec: [src/constants/default_qualitys] and
    [src/constants/all_types] are not among the sources. The default
    quality selector has every label disabled (its labels are those the
    documentation of the options lists); the default types are the three
    that the comment of [MAIN_GET_INFO_OPTIONS] gives. *)
Module Documented.

#[export] Instance constants : Constants := {|
  D_Q := [("144p", false); ("240p", false); ("360p", false); ("480p", false);
          ("720p", false); ("1080p", false); ("1440p", false); ("2160p", false)];
  ALL_TYPES := [VString "video"; VString "audio"; VString "video and audio"];
|}.

End Documented.

(** ** Concrete inputs *)

(** A video with two 720p formats, a playlist of two entries, and the
    providers that serve them; ["badurl"] is not a video. *)
Module Scenario.
Export PlainWords Documented.

Definition mp4_720p_video_only : RawFormat.t :=
  {| RawFormat.mimeType := Some "video/mp4; codecs=avc1.4d401f";
     RawFormat.qualityLabel := Present "720p";
     RawFormat.hasAudio := false;
     RawFormat.hasVideo := true;
     RawFormat.url := "https://rr1.example/videoplayback?itag=136" |}.

Definition mp4_720p_with_audio : RawFormat.t :=
  {| RawFormat.mimeType := Some "video/mp4; codecs=avc1.64001F, mp4a.40.2";
     RawFormat.qualityLabel := Present "720p";
     RawFormat.hasAudio := true;
     RawFormat.hasVideo := true;
     RawFormat.url := "https://rr1.example/videoplayback?itag=22" |}.

(** A descriptor without quality label and without audio. *)
Definition bare_descriptor : RawFormat.t :=
  {| RawFormat.mimeType := Some "text/vtt; charset=utf-8";
     RawFormat.qualityLabel := Undefined;
     RawFormat.hasAudio := false;
     RawFormat.hasVideo := false;
     RawFormat.url := "https://rr1.example/videoplayback?itag=0" |}.

(** A descriptor of a track with video and audio that has no quality
    label. *)
Definition unlabelled_video : RawFormat.t :=
  {| RawFormat.mimeType := Some "video/mp4; codecs=avc1.64001F";
     RawFormat.qualityLabel := Null;
     RawFormat.hasAudio := true;
     RawFormat.hasVideo := true;
     RawFormat.url := "https://rr1.example/videoplayback?itag=18" |}.

Definition watch_url : string := "https://www.youtube.com/watch?v=dQw4w9WgXcQ".

Definition info : RawVideoInfo.t :=
  {| RawVideoInfo.videoDetails :=
       {| VideoDetails.videoId := "dQw4w9WgXcQ";
          VideoDetails.title := "Never Gonna Give You Up";
          VideoDetails.video_url := watch_url |};
     RawVideoInfo.formats := [mp4_720p_video_only; mp4_720p_with_audio] |}.

#[export] Instance videos : VideoInfoProvider := λ url_,
  if bool_decide (url_ = "badurl") then Throw "Not a YouTube domain"
  else Normal info.

Definition playlist_url : string := "https://www.youtube.com/playlist?list=PL1".

Definition unknown_playlist_url : string :=
  "https://www.youtube.com/playlist?list=none".

(** A playlist whose second entry has no URL left. *)
Definition playlist : RawPlaylist.t :=
  {| RawPlaylist.id := "PL1";
     RawPlaylist.title := "Mix";
     RawPlaylist.items :=
       [ {| RawItem.id := "dQw4w9WgXcQ"; RawItem.title := "Never Gonna Give You Up";
            RawItem.url := watch_url |};
         {| RawItem.id := "removed"; RawItem.title := "[Deleted video]";
            RawItem.url := "" |} ];
     RawPlaylist.estimatedItemCount := 2 |}.

#[export] Instance playlists : PlaylistInfoProvider := λ url_ limit,
  if bool_decide (url_ = playlist_url) then Normal playlist
  else Throw "Unknown Playlist".

(** A playlist provider that fails with an error without message, as
    [throw new Error()] does. *)
Definition silent_failure : PlaylistInfoProvider := λ _ _, Throw "".

(** A search provider that is offline. *)
Definition offline : string → string → option Z → Completion unit :=
  λ _ _ _, Throw "getaddrinfo ENOTFOUND www.youtube.com".

(** The two records that the builder makes of [info]. *)
Definition record_video_only : Video.FormatRecord :=
  {| Video.title := "video/mp4 [720p] [-audio]";
     Video.mimeType := "video/mp4; codecs=avc1.4d401f";
     Video.hasVideo := true;
     Video.hasAudio := false;
     Video.type := "video";
     Video.quality := Present "720p";
     Video.url :=
       "https://rr1.example/videoplayback/1 - Never Gonna Give You Up?itag=136" |}.

Definition record_with_audio : Video.FormatRecord :=
  {| Video.title := "video/mp4 [720p] [+audio]";
     Video.mimeType := "video/mp4; codecs=avc1.64001F, mp4a.40.2";
     Video.hasVideo := true;
     Video.hasAudio := true;
     Video.type := "video and audio";
     Video.quality := Present "720p";
     Video.url :=
       "https://rr1.example/videoplayback/1 - Never Gonna Give You Up?itag=22" |}.

(** The selector [{ "720p": true }] of the documentation's example. *)
Definition only_720p : Object bool := [("720p", true)].

(** The request of the first two entries of the playlist, as an array
    and as text. *)
Definition first_two : Playlist.GetDownloadsLinksOptions :=
  {| Playlist.VideoDataType := None; Playlist.types := None;
     Playlist.opt_from := Some (Playlist.RNumber 1);
     Playlist.opt_to := Some (Playlist.RNumber 2); Playlist.qualitys := None |}.

Definition first_two_as_text : Playlist.GetDownloadsLinksOptions :=
  {| Playlist.VideoDataType := Some "text"; Playlist.types := None;
     Playlist.opt_from := Some (Playlist.RNumber 1);
     Playlist.opt_to := Some (Playlist.RNumber 2); Playlist.qualitys := None |}.

End Scenario.

(** ** The notions of the statements *)

Module Notions.

(** *** Range validation *)

(** The three error messages of [#prepare_from_to], for a normalized
    pair and a count. *)
Definition not_positive_message (from to : Z) : string :=
  "ERROR: From '" +:+ String_of_Z from +:+ "' and To '" +:+ String_of_Z to
  +:+ "' must be greater than 0".

Definition inverted_message (from to : Z) : string :=
  "ERROR: From '" +:+ String_of_Z from
  +:+ "' must be less than or equal to To '" +:+ String_of_Z to +:+ "'".

Definition too_large_message (from to numberVideo : Z) : string :=
  "ERROR: From '" +:+ String_of_Z from +:+ "' and To '" +:+ String_of_Z to
  +:+ "' must not be greater than the number of videos in playlist ("
  +:+ String_of_Z numberVideo +:+ ")".

(** *** Format records *)

(** The [type] that the builder computes from the two flags. *)
Definition type_of_flags (hasVideo hasAudio : bool) : string :=
  match hasVideo, hasAudio with
  | true, true => "video and audio"
  | true, false => "video"
  | false, true => "audio"
  | false, false => "others"
  end.

(** A descriptor with another video-track flag. *)
Definition with_hasVideo (flag : bool) (format : RawFormat.t) : RawFormat.t :=
  {| RawFormat.mimeType := RawFormat.mimeType format;
     RawFormat.qualityLabel := RawFormat.qualityLabel format;
     RawFormat.hasAudio := RawFormat.hasAudio format;
     RawFormat.hasVideo := flag;
     RawFormat.url := RawFormat.url format |}.

(** Being the string [s], and having the string [s] among the elements,
    are decidable. *)
#[export] Instance is_string_dec (v : Value) (s : string) :
  Decision (v = VString s).
Proof.
  refine (match v with
          | VString t => cast_if (decide (t = s))
          | _ => right _
          end); congruence.
Defined.

#[export] Instance string_elem_of_dec (s : string) (elements : list Value) :
  Decision (VString s ∈ elements).
Proof.
  refine (cast_if (decide (Exists (λ v, v = VString s) elements))).
  - by apply Exists_exists in e as (v & Hin & ->).
  - intros Hin. apply n, Exists_exists. eauto.
Defined.

(** *** The quality filter of the specification *)

(** Does [title] contain [label], letters matching in either case? *)
Fixpoint contains_ci (label title : string) : bool :=
  starts_with true label title
  || match title with
     | EmptyString => false
     | String _ rest => contains_ci label rest
     end.

(** Does [title] contain one of the [labels]? *)
Definition title_matches (labels : list string) (title : string) : bool :=
  existsb (λ label, contains_ci label title) labels.

(** Does [text] start with one of the [labels]? *)
Definition starts_with_any (labels : list string) (text : string) : bool :=
  existsb (λ label, starts_with true label text) labels.

Section Notions.
Context `{!VideoInfoProvider, !PlaylistInfoProvider, !RegExpEngine, !Constants}.

(** The quality filter as the specification words it: the enabled labels
    of the selector merged over the default; no filtering when there is
    none; otherwise a record is kept when its title contains one of them,
    whatever the other records are. *)
Definition quality_filter_spec (formats : list Video.FormatRecord)
    (qualitys : option (Object bool)) : list Video.FormatRecord :=
  let labels := Video.enabled_qualities qualitys in
  match labels with
  | [] => formats
  | _ => filter (λ format, title_matches labels (Video.title format)) formats
  end.

(** *** The arguments of [getDownloadLink] once their defaults are in *)

Definition number_of (videoNumber : option Z) : Z := default 1 videoNumber.

Definition types_of (types : Value) : Value :=
  default_parameter types (VArray [VString "video and audio"]).

Definition qualitys_of (qualitys : option (Object bool)) : Object bool :=
  default [] qualitys.

Definition contextInfo (videoUrl : string) (videoNumber : Z) : string :=
  "| N: " +:+ String_of_Z videoNumber +:+ " | url: " +:+ videoUrl.

(** The options with which [getDownloadLink] calls [getInfo]. *)
Definition link_options (videoNumber : option Z) (types : Value)
    (qualitys : option (Object bool)) : Video.GetInfoOptions :=
  {| Video.VideoNumber := Some (Video.Number (number_of videoNumber));
     Video.VideoDataType := None;
     Video.types := Some (types_of types);
     Video.qualitys := Some (qualitys_of qualitys) |}.

(** The slot of one item in [getDownloadLinkForMany]. *)
Definition slot (response : Response string) : string :=
  if err response then err_msg response else default "" (data response).

(** What the loop of [getDownloadsLinks] hands to [addLink] for the
    ordinal [videoIndex]. *)
Definition link_of (videos : gmap string Playlist.PlaylistVideo) (types : Value)
    (qualitys : Object bool) (videoIndex : Z) : Playlist.Link :=
  match Playlist.video_url <$> videos !! String_of_Z videoIndex with
  | Some (String c rest) =>
      Playlist.LinkResponse
        (Video.getDownloadLink (String c rest) (Some videoIndex) types
           (Some qualitys))
  | _ => Playlist.LinkText ("Video URL not found | N: " +:+ String_of_Z videoIndex)
  end.

End Notions.

(** *** The response envelope *)

(** The invariant of the specification: an error has no payload and a
    message; a success has the empty message. *)
Definition envelope_invariant {T} (response : Response T) : Prop :=
  (err response = true → data response = None ∧ err_msg response ≠ "")
  ∧ (err response = false → err_msg response = "").

(** The part of the invariant that does not depend on the message of the
    cause. *)
Definition envelope_shape {T} (response : Response T) : Prop :=
  (err response = true → data response = None)
  ∧ (err response = false → err_msg response = "").

End Notions.
Export Notions.
(** ** Further notions, for the properties beyond the claims *)

Module Terms.

(** Is [s] made of letters and digits only? *)
Fixpoint plain_word (s : string) : bool :=
  match s with
  | EmptyString => true
  | String c rest => PlainWords.is_word_char c && plain_word rest
  end.

(** Is [c] one of the characters that [#prepare_formats] replaces in a
    title? *)
Definition path_unsafe (c : ascii) : bool :=
  bool_decide (c = "/"%char) || bool_decide (c = "|"%char)
  || bool_decide (c = "#"%char).

(** The characters of a string. *)
Fixpoint chars (s : string) : list ascii :=
  match s with
  | EmptyString => []
  | String c rest => c :: chars rest
  end.

(** The entry that [Playlist.getInfo] makes of an item. *)
Definition entry_of_item (video : RawItem.t) : Playlist.PlaylistVideo :=
  {| Playlist.id := RawItem.id video; Playlist.title := RawItem.title video;
     Playlist.video_url := RawItem.url video; Playlist.formats := None |}.

(** An entry with its [formats] set. *)
Definition with_formats (formats : Playlist.EntryFormats)
    (video : Playlist.PlaylistVideo) : Playlist.PlaylistVideo :=
  {| Playlist.id := Playlist.id video; Playlist.title := Playlist.title video;
     Playlist.video_url := Playlist.video_url video;
     Playlist.formats := Some formats |}.

(** The text of [lines], each followed by a line feed. *)
Definition lines_text (lines : list string) : string :=
  foldr (λ line text, line +:+ LF +:+ text) "" lines.

(** The key under which [Playlist.getInfo] stores the item of index
    [index]. *)
Definition key_of (index : nat) : string := String_of_Z (Z.of_nat index + 1).

(** The text that [getDownloadsLinks] puts in the slot of an ordinal
    without video URL. *)
Definition placeholder (videoIndex : Z) : string :=
  "Video URL not found | N: " +:+ String_of_Z videoIndex.

(** The response format of [getDownloadsLinks] before the fallback to
    ["json"]. *)
Definition response_format (options : Playlist.GetDownloadsLinksOptions) : string :=
  trim (toLowerCase (default "json" (Playlist.VideoDataType options))).

(** The text form of a structured [VideoData]. *)
Definition text_of (VideoData : Video.VideoData) : Video.VideoData :=
  match VideoData with
  | Video.VideoObject id title video_url formats =>
      Video.VideoText (Video.data_to_text id title video_url formats)
  | Video.VideoText text => Video.VideoText text
  end.

Section Terms.
Context `{!VideoInfoProvider, !PlaylistInfoProvider, !RegExpEngine, !Constants}.

(** What [#add_download_links] stores in the entry [video] under the key
    [videoNumber]. *)
Definition formats_of_entry (videoNumber : string)
    (video : Playlist.PlaylistVideo) : Playlist.EntryFormats :=
  let response :=
    Video.getInfo (Playlist.video_url video)
      {| Video.VideoNumber := Some (Video.Key videoNumber);
         Video.VideoDataType := None; Video.types := None;
         Video.qualitys := None |} in
  match err response, data response with
  | false, Some (Video.VideoObject _ _ _ formats) => Playlist.Formats formats
  | _, _ =>
      Playlist.FormatsError ("Error in Get Video Info | ERROR MESSAGE: "
                             +:+ err_msg response)
  end.

(** The link of the ordinal [videoIndex], read off the items of the
    playlist: the placeholder when there is no such item or its URL is
    empty, the response of [Video.getDownloadLink] otherwise. *)
Definition link_of_items (items : list RawItem.t) (types : Value)
    (qualitys : Object bool) (videoIndex : Z) : Playlist.Link :=
  match items !! Z.to_nat (videoIndex - 1) with
  | Some video =>
      if bool_decide (RawItem.url video = "") then
        Playlist.LinkText (placeholder videoIndex)
      else
        Playlist.LinkResponse
          (Video.getDownloadLink (RawItem.url video) (Some videoIndex) types
             (Some qualitys))
  | None => Playlist.LinkText (placeholder videoIndex)
  end.

End Terms.

(** *** Further concrete inputs *)

(** A descriptor whose URL is a manifest, without [/videoplayback?]. *)
Definition manifest_descriptor : RawFormat.t :=
  {| RawFormat.mimeType := Some "application/x-mpegURL";
     RawFormat.qualityLabel := Present "720p";
     RawFormat.hasAudio := true;
     RawFormat.hasVideo := true;
     RawFormat.url := "https://manifest.example/api/manifest/hls_playlist/id/abc" |}.

Definition audio_only : RawFormat.t :=
  {| RawFormat.mimeType := Some "audio/mp4; codecs=mp4a.40.2";
     RawFormat.qualityLabel := Null;
     RawFormat.hasAudio := true;
     RawFormat.hasVideo := false;
     RawFormat.url := "https://rr1.example/videoplayback?itag=140" |}.

(** A video that only has separate video and audio streams, and the
    provider that serves it. *)
Definition split_info : RawVideoInfo.t :=
  {| RawVideoInfo.videoDetails := RawVideoInfo.videoDetails Scenario.info;
     RawVideoInfo.formats := [Scenario.mp4_720p_video_only; audio_only] |}.

Definition split_videos : VideoInfoProvider := λ _, Normal split_info.

(** A selector with a key that is not a regular expression, and one
    without enabled flag. *)
Definition unbalanced_selector : Object bool := [("(", true)].

Definition disabled_selector : Object bool := [("720p", false)].

(** An empty playlist, and a provider for which every playlist is this
    one. *)
Definition empty_playlist : RawPlaylist.t :=
  {| RawPlaylist.id := "PL0"; RawPlaylist.title := "Empty";
     RawPlaylist.items := []; RawPlaylist.estimatedItemCount := 0 |}.

Definition empty_playlists : PlaylistInfoProvider := λ _ _, Normal empty_playlist.

(** A provider that gives the count of a playlist and refuses its
    entries. *)
Definition entries_private : PlaylistInfoProvider := λ url_ limit,
  match limit with
  | None => Normal Scenario.playlist
  | Some _ => Throw "This playlist is private."
  end.

(** A search whose results are URLs: two playlists, the second of which
    is unknown to the playlist provider; and a search with an item that
    cannot be formatted. *)
Definition found_playlists : string → string → option Z → Completion (list string) :=
  λ _ _ _, Normal [Scenario.playlist_url; Scenario.unknown_playlist_url].

Definition found_videos : string → string → option Z → Completion (list string) :=
  λ _ _ _, Normal [Scenario.watch_url; ""; Scenario.watch_url].

Definition video_item_of (video : string) : Completion string :=
  if bool_decide (video = "") then
    Throw "Cannot destructure property 'name' of 'author' as it is undefined."
  else Normal video.

(** Two ways to prepare the results of [videoAndRecommendations]: the
    title of the video alone, and a video data without related videos. *)
Definition origin_title (info : RawVideoInfo.t) : Completion string :=
  Normal (VideoDetails.title (RawVideoInfo.videoDetails info)).

Definition no_related_videos (info : RawVideoInfo.t) : Completion string :=
  Throw "Cannot read properties of undefined (reading 'map')".

End Terms.
Export Terms.

(** ** The range validator *)

Module RangeFacts.
Import Playlist.

Lemma normalize_default (x : RangeArg) (d : Z) :
  x = RNull ∨ x = RNotNumber → normalize x d = d.
Proof. by intros [-> | ->]. Qed.

Lemma normalize_number (n d : Z) : normalize (RNumber n) d = n.
Proof. done. Qed.

Lemma prepareRange_not_positive (numberVideo : Z) (from to : RangeArg) :
  normalize from 1 ≤ 0 ∨ normalize to numberVideo ≤ 0 →
  prepareRange numberVideo from to
  = range_error (not_positive_message (normalize from 1) (normalize to numberVideo)).
Proof.
  intros Hle. unfold prepareRange.
  assert ((normalize from 1 <=? 0) || (normalize to numberVideo <=? 0) = true)
    as ->; [|done].
  apply orb_true_iff. destruct Hle; [left | right]; by apply Z.leb_le.
Qed.

Lemma prepareRange_inverted (numberVideo : Z) (from to : RangeArg) :
  0 < normalize to numberVideo < normalize from 1 →
  prepareRange numberVideo from to
  = range_error (inverted_message (normalize from 1) (normalize to numberVideo)).
Proof.
  intros [Hto Hlt]. unfold prepareRange.
  rewrite (proj2 (Z.leb_gt _ _)) by lia.
  rewrite (proj2 (Z.leb_gt _ _)) by lia. simpl.
  by rewrite (proj2 (Z.ltb_lt _ _)) by lia.
Qed.

Lemma prepareRange_too_large (numberVideo : Z) (from to : RangeArg) :
  0 < normalize from 1 ≤ normalize to numberVideo →
  numberVideo < normalize to numberVideo →
  prepareRange numberVideo from to
  = range_error (too_large_message (normalize from 1) (normalize to numberVideo)
                   numberVideo).
Proof.
  intros [Hfrom Hle] Hlarge. unfold prepareRange.
  rewrite (proj2 (Z.leb_gt _ _)) by lia.
  rewrite (proj2 (Z.leb_gt _ _)) by lia. simpl.
  rewrite (proj2 (Z.ltb_ge _ _)) by lia.
  rewrite (proj2 (Z.ltb_lt numberVideo (normalize to numberVideo))) by lia.
  by rewrite orb_true_r.
Qed.

Lemma prepareRange_valid (numberVideo : Z) (from to : RangeArg) :
  0 < normalize from 1 ≤ normalize to numberVideo →
  normalize to numberVideo ≤ numberVideo →
  prepareRange numberVideo from to
  = {| succ := true; msg_err := ""; Playlist.from := Some (normalize from 1);
       Playlist.to := Some (normalize to numberVideo) |}.
Proof.
  intros [Hfrom Hle] Hsmall. unfold prepareRange.
  rewrite (proj2 (Z.leb_gt _ _)) by lia.
  rewrite (proj2 (Z.leb_gt _ _)) by lia. simpl.
  rewrite (proj2 (Z.ltb_ge _ _)) by lia.
  rewrite (proj2 (Z.ltb_ge numberVideo (normalize from 1))) by lia.
  by rewrite (proj2 (Z.ltb_ge numberVideo (normalize to numberVideo))) by lia.
Qed.

(** The validator succeeds exactly on the pairs with
    [1 ≤ from ≤ to ≤ numberVideo]. *)
Lemma prepareRange_succ (numberVideo : Z) (from to : RangeArg) :
  succ (prepareRange numberVideo from to) = true
  ↔ 0 < normalize from 1 ≤ normalize to numberVideo
    ∧ normalize to numberVideo ≤ numberVideo.
Proof.
  set (f := normalize from 1). set (t := normalize to numberVideo).
  destruct (decide (f ≤ 0 ∨ t ≤ 0)) as [Hneg | Hpos].
  { rewrite prepareRange_not_positive by done. simpl. split; [done | lia]. }
  destruct (decide (t < f)) as [Hinv | Hord].
  { rewrite prepareRange_inverted by (fold f t; lia). simpl. split; [done | lia]. }
  destruct (decide (numberVideo < t)) as [Hlarge | Hsmall].
  { rewrite prepareRange_too_large by (fold f t; lia). simpl. split; [done | lia]. }
  rewrite prepareRange_valid by (fold f t; lia). simpl. split; [lia | done].
Qed.

(** The validator refuses every other pair, with a message and without
    range. *)
Lemma prepareRange_refused (numberVideo : Z) (from to : RangeArg) :
  ¬ (0 < normalize from 1 ≤ normalize to numberVideo
     ∧ normalize to numberVideo ≤ numberVideo) →
  succ (prepareRange numberVideo from to) = false
  ∧ msg_err (prepareRange numberVideo from to) ≠ ""
  ∧ Playlist.from (prepareRange numberVideo from to) = None
  ∧ Playlist.to (prepareRange numberVideo from to) = None.
Proof.
  set (f := normalize from 1). set (t := normalize to numberVideo). intros Hno.
  destruct (decide (f ≤ 0 ∨ t ≤ 0)) as [Hneg | Hpos].
  { by rewrite prepareRange_not_positive. }
  destruct (decide (t < f)) as [Hinv | Hord].
  { by rewrite prepareRange_inverted by (fold f t; lia). }
  by rewrite prepareRange_too_large by (fold f t; lia).
Qed.

(** C1. For a playlist of [totalCount ≥ 1] videos, the range validator
    replaces a [null] or non-numeric [from] by 1 and a [null] or
    non-numeric [to] by [totalCount]; it fails when the normalized [from]
    or [to] is not positive (its [msg_err] is the "must be greater than 0"
    message), fails with a message when [from > to] (the "must be less
    than or equal to" message once both are positive), fails with a
    message when [from] or [to] exceeds [totalCount] (the "must not be
    greater than the number of videos" message once the pair is positive
    and ordered), and otherwise succeeds with the normalized pair and the
    empty message. A refusal has no range. The four examples of the
    specification are the last four conjuncts, with the texts of their
    messages. *)
Theorem prepareRange_correct (totalCount : Z) (from to : RangeArg) :
  1 ≤ totalCount →
  let f := normalize from 1 in
  let t := normalize to totalCount in
  let result := prepareRange totalCount from to in
  (from = RNull ∨ from = RNotNumber → f = 1)
  ∧ (to = RNull ∨ to = RNotNumber → t = totalCount)
  ∧ (∀ n, from = RNumber n → f = n)
  ∧ (∀ n, to = RNumber n → t = n)
  ∧ (f ≤ 0 ∨ t ≤ 0 →
     result
     = {| succ := false;
          msg_err := "ERROR: From '" +:+ String_of_Z f +:+ "' and To '"
                     +:+ String_of_Z t +:+ "' must be greater than 0";
          Playlist.from := None; Playlist.to := None |})
  ∧ (f > t → succ result = false ∧ msg_err result ≠ "")
  ∧ (0 < t < f →
     result
     = {| succ := false;
          msg_err := "ERROR: From '" +:+ String_of_Z f
                     +:+ "' must be less than or equal to To '"
                     +:+ String_of_Z t +:+ "'";
          Playlist.from := None; Playlist.to := None |})
  ∧ (f > totalCount ∨ t > totalCount → succ result = false ∧ msg_err result ≠ "")
  ∧ (0 < f ≤ t → totalCount < t →
     result
     = {| succ := false;
          msg_err := "ERROR: From '" +:+ String_of_Z f +:+ "' and To '"
                     +:+ String_of_Z t
                     +:+ "' must not be greater than the number of videos in playlist ("
                     +:+ String_of_Z totalCount +:+ ")";
          Playlist.from := None; Playlist.to := None |})
  ∧ (1 ≤ f ≤ t → t ≤ totalCount →
     result = {| succ := true; msg_err := ""; Playlist.from := Some f;
                 Playlist.to := Some t |})
  ∧ prepareRange 10 RNull RNull
    = {| succ := true; msg_err := ""; Playlist.from := Some 1;
         Playlist.to := Some 10 |}
  ∧ prepareRange 10 (RNumber 0) (RNumber 5)
    = {| succ := false;
         msg_err := "ERROR: From '0' and To '5' must be greater than 0";
         Playlist.from := None; Playlist.to := None |}
  ∧ prepareRange 10 (RNumber 6) (RNumber 3)
    = {| succ := false;
         msg_err := "ERROR: From '6' must be less than or equal to To '3'";
         Playlist.from := None; Playlist.to := None |}
  ∧ prepareRange 10 (RNumber 1) (RNumber 20)
    = {| succ := false;
         msg_err :=
           "ERROR: From '1' and To '20' must not be greater than the number of videos in playlist (10)";
         Playlist.from := None; Playlist.to := None |}.
Proof.
  intros Htotal f t result.
  assert (Hfail : ¬ (0 < f ≤ t ∧ t ≤ totalCount) →
                  succ result = false ∧ msg_err result ≠ "").
  { intros Hno. by destruct (prepareRange_refused totalCount from to Hno) as (? & ? & _). }
  split; [apply normalize_default|].
  split; [apply normalize_default|].
  split; [by intros n ->|].
  split; [by intros n ->|].
  split; [apply prepareRange_not_positive|].
  split; [intros Hgt; apply Hfail; lia|].
  split; [apply prepareRange_inverted|].
  split; [intros Hgt; apply Hfail; lia|].
  split; [apply prepareRange_too_large|].
  split; [intros Hord Hsmall; apply prepareRange_valid; [lia | done]|].
  done.
Qed.

Lemma prepareRange_correct_witness :
  1 ≤ 10
  ∧ msg_err (prepareRange 10 (RNumber 6) (RNumber 3))
    = "ERROR: From '6' must be less than or equal to To '3'"
  ∧ prepareRange 10 RNull RNull
    = {| succ := true; msg_err := ""; Playlist.from := Some 1;
         Playlist.to := Some 10 |}.
Proof.
  split; [lia |]. split.
  - refine (f_equal msg_err
              (proj1 (proj2 (proj2 (proj2 (proj2 (proj2 (proj2
                 (prepareRange_correct 10 (RNumber 6) (RNumber 3) _)))))))
                 _)).
    + lia.
    + simpl. lia.
  - apply (prepareRange_correct 10 RNull RNull); lia.
Defined.

End RangeFacts.


(** ** The format record builder and the type filter *)

Module BuilderFacts.
Import Video Scenario.

Lemma elem_of_prepare_formats (formats : list RawFormat.t) (videoNumber : Ordinal)
    (videoTitle : string) (record : FormatRecord) :
  record ∈ prepare_formats formats videoNumber videoTitle
  ↔ ∃ format mimeType,
      format ∈ formats
      ∧ RawFormat.mimeType format = Some mimeType
      ∧ record = prepare_format videoNumber (sanitize videoTitle) format mimeType.
Proof.
  unfold prepare_formats. rewrite list_elem_of_omap. split.
  - intros (format & Hin & Hbuilt).
    destruct (RawFormat.mimeType format) as [mimeType|] eqn:Hmime; [|done].
    exists format, mimeType. by simplify_eq/=.
  - intros (format & mimeType & Hin & Hmime & ->).
    exists format. by rewrite Hmime.
Qed.

(** Descriptors without the key [mimeType] leave no record. *)
Lemma prepare_formats_drops_missing (format : RawFormat.t)
    (formats : list RawFormat.t) (videoNumber : Ordinal) (videoTitle : string) :
  RawFormat.mimeType format = None →
  prepare_formats (format :: formats) videoNumber videoTitle
  = prepare_formats formats videoNumber videoTitle.
Proof. intros Hmime. unfold prepare_formats. simpl. by rewrite Hmime. Qed.

Lemma prepare_format_type (videoNumber : Ordinal) (videoTitle : string)
    (format : RawFormat.t) (mimeType : string) :
  let record := prepare_format videoNumber videoTitle format mimeType in
  type record = type_of_flags (hasVideo record) (hasAudio record).
Proof.
  simpl. by destruct (not_nullish (RawFormat.qualityLabel format)),
    (RawFormat.hasAudio format).
Qed.

(** The record of a descriptor with neither quality label nor audio has
    the type ["others"], which is not ["other"]. *)
Lemma neither_flag_gives_others :
  let record :=
    prepare_format (Number 1) "title" bare_descriptor "text/vtt; charset=utf-8" in
  prepare_formats [bare_descriptor] (Number 1) "title" = [record]
  ∧ hasVideo record = false
  ∧ hasAudio record = false
  ∧ type record = "others"
  ∧ type record ≠ "other".
Proof. by vm_compute. Qed.

(** C3, amended. Every record that the builder makes from a descriptor
    with a [mimeType] has type ["video and audio"] when it has video and
    audio, ["video"] when it has video only, ["audio"] when it has audio
    only, and ["others"] when it has neither. *)
Theorem built_type_is_computed (formats : list RawFormat.t) (videoNumber : Ordinal)
    (videoTitle : string) (record : FormatRecord) :
  record ∈ prepare_formats formats videoNumber videoTitle →
  (hasVideo record = true → hasAudio record = true →
   type record = "video and audio")
  ∧ (hasVideo record = true → hasAudio record = false → type record = "video")
  ∧ (hasVideo record = false → hasAudio record = true → type record = "audio")
  ∧ (hasVideo record = false → hasAudio record = false → type record = "others").
Proof.
  intros Hin. apply elem_of_prepare_formats in Hin
    as (format & mimeType & Hformat & Hmime & ->).
  rewrite prepare_format_type.
  repeat split; by intros -> ->.
Qed.

Lemma built_type_is_computed_witness :
  let record :=
    prepare_format (Number 1) "title" unlabelled_video
      "video/mp4; codecs=avc1.64001F" in
  record ∈ prepare_formats [unlabelled_video] (Number 1) "title"
  ∧ type record = "audio".
Proof.
  assert (Hin :
    prepare_format (Number 1) "title" unlabelled_video
      "video/mp4; codecs=avc1.64001F"
    ∈ prepare_formats [unlabelled_video] (Number 1) "title").
  { vm_compute. apply list_elem_of_here. }
  split; [exact Hin |].
  apply (built_type_is_computed _ _ _ _ Hin); reflexivity.
Defined.

(** C10. For a descriptor that has a [mimeType], the builder makes exactly
    one record; its [hasVideo] flag is true exactly when the descriptor's
    [qualityLabel] is neither [null] nor [undefined], its [quality] is
    that [qualityLabel], and the descriptor's own video-track flag has no
    influence on the record: a descriptor without quality label gets the
    type ["audio"] if it has audio and ["others"] if not, also when it
    carries video. *)
Theorem hasVideo_is_quality_presence (videoNumber : Ordinal) (videoTitle : string)
    (format : RawFormat.t) (mimeType : string) :
  RawFormat.mimeType format = Some mimeType →
  ∃ record,
    prepare_formats [format] videoNumber videoTitle = [record]
    ∧ (hasVideo record = true
       ↔ RawFormat.qualityLabel format ≠ Null
         ∧ RawFormat.qualityLabel format ≠ Undefined)
    ∧ quality record = RawFormat.qualityLabel format
    ∧ (∀ flag,
         prepare_formats [with_hasVideo flag format] videoNumber videoTitle
         = [record])
    ∧ (hasVideo record = false →
       type record = if RawFormat.hasAudio format then "audio" else "others").
Proof.
  intros Hmime.
  exists (prepare_format videoNumber (sanitize videoTitle) format mimeType).
  split; [|split; [|split; [|split]]].
  - unfold prepare_formats. simpl. by rewrite Hmime.
  - simpl. destruct (RawFormat.qualityLabel format); simpl;
      (split; [intros Heq; try discriminate Heq; by split
              | intros [Hnull Hundef]; try done; congruence]).
  - done.
  - intros flag. unfold prepare_formats. simpl. by rewrite Hmime.
  - simpl. by destruct (not_nullish (RawFormat.qualityLabel format)),
      (RawFormat.hasAudio format).
Qed.

Lemma hasVideo_is_quality_presence_witness :
  ∃ record,
    prepare_formats [unlabelled_video] (Number 1) "title" = [record]
    ∧ hasVideo record = false
    ∧ type record = "audio".
Proof.
  destruct (hasVideo_is_quality_presence (Number 1) "title" unlabelled_video
              "video/mp4; codecs=avc1.64001F" eq_refl)
    as (record & Hbuilt & Hvideo & _ & _ & Htype).
  exists record. split; [exact Hbuilt |].
  assert (Hno : hasVideo record = false).
  { destruct (hasVideo record); [|reflexivity].
    destruct (proj1 Hvideo eq_refl) as [Hnull _]. by destruct Hnull. }
  split; [exact Hno | exact (Htype Hno)].
Defined.

(** *** The type filter *)

Lemma includes_elem_of (elements : list Value) (s : string) :
  includes elements s = true ↔ VString s ∈ elements.
Proof.
  unfold includes. induction elements as [|v elements IH]; simpl.
  - split; [done | by intros ?%elem_of_nil].
  - rewrite orb_true_iff, IH, elem_of_cons. apply or_iff_compat_r.
    destruct v; simpl; try (split; [done | by intros [=]]).
    rewrite bool_decide_eq_true. split; [by intros -> | by intros [=]].
Qed.

(** C8. When the selector is not an array the type filter returns its
    input; when it is the array [elements], the result is the input with
    the records whose type is not an element of [elements] removed: the
    records kept are in their original order, and a record is kept exactly
    when its type is in [elements]. *)
Theorem filter_formats_by_types_correct (formats : list FormatRecord)
    (types : Value) :
  ((∀ elements, types ≠ VArray elements) →
   filter_formats_by_types formats types = formats)
  ∧ (∀ elements, types = VArray elements →
     filter_formats_by_types formats types
     = filter (λ record, VString (type record) ∈ elements) formats
     ∧ filter_formats_by_types formats types `sublist_of` formats
     ∧ ∀ record,
         record ∈ filter_formats_by_types formats types
         ↔ record ∈ formats ∧ VString (type record) ∈ elements).
Proof.
  split.
  - intros Hnot. destruct types; try done. by destruct (Hnot elements).
  - intros elements ->. simpl.
    split; [|split].
    + apply list_filter_iff. intros record.
      rewrite <-includes_elem_of. by destruct (includes _ _).
    + apply sublist_filter.
    + intros record. rewrite list_elem_of_filter, <-includes_elem_of.
      rewrite Is_true_true. tauto.
Qed.

Lemma filter_formats_by_types_correct_witness :
  let audio_only : FormatRecord :=
    prepare_format (Number 1) "title" unlabelled_video
      "video/mp4; codecs=avc1.64001F" in
  let elements := [VString "video"; VString "video and audio"] in
  filter_formats_by_types [audio_only] (VArray elements) = []
  ∧ filter_formats_by_types [audio_only] (VString "audio") = [audio_only].
Proof.
  intros audio_only elements. split.
  - rewrite (proj1 (proj2 (filter_formats_by_types_correct [audio_only]
                             (VArray elements)) elements eq_refl)).
    vm_compute. reflexivity.
  - apply (proj1 (filter_formats_by_types_correct [audio_only] (VString "audio"))).
    intros other. discriminate.
Defined.

End BuilderFacts.

(** ** The quality filter *)

Module QualityFacts.
Import Video Scenario.

Lemma filter_test_sublist (regExp : Matcher) (lastIndex : nat)
    (formats : list FormatRecord) :
  filter_test regExp lastIndex formats `sublist_of` formats.
Proof.
  revert lastIndex. induction formats as [|format formats IH]; intros lastIndex.
  - apply sublist_nil.
  - simpl. destruct (RegExp_test regExp lastIndex (title format)) as [[] next].
    + apply sublist_skip, IH.
    + apply sublist_cons, IH.
Qed.

(** A failed test leaves [lastIndex] at 0. *)
Lemma RegExp_test_failed (regExp : Matcher) (lastIndex next : nat) (s : string) :
  RegExp_test regExp lastIndex s = (false, next) → next = O.
Proof.
  unfold RegExp_test. destruct (search _ _ _ _); [done|]. by intros [= <-].
Qed.

(** The first record that a fresh regular expression matches is kept:
    up to it, every test starts at offset 0. *)
Lemma filter_test_first (regExp : Matcher) (formats : list FormatRecord) :
  head (filter_test regExp 0 formats)
  = head (filter (λ format, (RegExp_test regExp 0 (title format)).1) formats).
Proof.
  induction formats as [|format formats IH]; [done|].
  simpl. rewrite filter_cons.
  destruct (RegExp_test regExp 0 (title format)) as [[] next] eqn:Htest; simpl.
  - done.
  - apply RegExp_test_failed in Htest as ->. apply IH.
Qed.

(** *** The search of the engine for plain words *)

Lemma search_none (m : Matcher) (s : string) (fuel i : nat) :
  search m s fuel i = None ↔ ∀ k, (k < fuel)%nat → m s (i + k)%nat = None.
Proof.
  revert i. induction fuel as [|fuel IH]; intros i; simpl.
  - split; [|done]. intros _ k Hk. lia.
  - destruct (m s i) as [e|] eqn:Hhere.
    + split; [done|]. intros Hall. specialize (Hall O).
      rewrite Nat.add_0_r, Hhere in Hall. apply Hall. lia.
    + rewrite IH. split.
      * intros Hall [|k] Hk; [by rewrite Nat.add_0_r|].
        rewrite <-Nat.add_succ_comm. apply Hall. lia.
      * intros Hall k Hk. rewrite Nat.add_succ_comm. apply Hall. lia.
Qed.

Lemma search_some (m : Matcher) (s : string) (fuel i e : nat) :
  search m s fuel i = Some e →
  ∃ k, (k < fuel)%nat ∧ m s (i + k)%nat = Some e.
Proof.
  revert i. induction fuel as [|fuel IH]; intros i; simpl; [done|].
  destruct (m s i) as [e'|] eqn:Hhere.
  - intros [= ->]. exists O. rewrite Nat.add_0_r. split; [lia | done].
  - intros (k & Hk & Hlater)%IH. exists (S k).
    rewrite <-Nat.add_succ_comm. split; [lia | done].
Qed.

Lemma match_at_none (labels : list string) (s : string) (i : nat) :
  PlainWords.match_at true labels s i = None
  ↔ starts_with_any labels (drop_string i s) = false.
Proof.
  unfold PlainWords.match_at, starts_with_any.
  induction labels as [|label labels IH]; simpl; [done|].
  destruct (starts_with true label (drop_string i s)); simpl; [done|].
  apply IH.
Qed.

Lemma contains_ci_offset (label title : string) :
  contains_ci label title = true
  ↔ ∃ k, (k ≤ String.length title)%nat
         ∧ starts_with true label (drop_string k title) = true.
Proof.
  induction title as [|c rest IH].
  - simpl. rewrite orb_false_r. split.
    + intros Hhere. exists O. by destruct label.
    + intros (k & Hk & Hhere). by destruct k, label.
  - change (contains_ci label (String c rest))
      with (starts_with true label (String c rest) || contains_ci label rest).
    rewrite orb_true_iff, IH. split.
    + intros [Hhere | (k & Hk & Hlater)].
      * exists O. split; [simpl; lia | done].
      * exists (S k). split; [simpl; lia | done].
    + intros ([|k] & Hk & Hhere); [by left|].
      right. exists k. split; [simpl in Hk; lia | done].
Qed.

Lemma title_matches_offset (labels : list string) (title : string) :
  title_matches labels title = true
  ↔ ∃ k, (k ≤ String.length title)%nat
         ∧ starts_with_any labels (drop_string k title) = true.
Proof.
  unfold title_matches, starts_with_any. rewrite existsb_exists. split.
  - intros (label & Hin & (k & Hk & Hhere)%contains_ci_offset).
    exists k. split; [done|]. apply existsb_exists. eauto.
  - intros (k & Hk & (label & Hin & Hhere)%existsb_exists).
    exists label. split; [done|]. apply contains_ci_offset. eauto.
Qed.

(** A test that succeeds, from whatever [lastIndex], has found one of the
    labels in the title. *)
Lemma RegExp_test_sound (labels : list string) (lastIndex : nat) (title : string) :
  (RegExp_test (PlainWords.match_at true labels) lastIndex title).1 = true →
  title_matches labels title = true.
Proof.
  unfold RegExp_test.
  destruct (search _ _ _ _) as [e|] eqn:Hsearch; simpl; [intros _|done].
  apply title_matches_offset.
  apply search_some in Hsearch as (k & Hk & Hhere).
  exists (lastIndex + k)%nat. split; [lia|].
  destruct (starts_with_any labels (drop_string (lastIndex + k) title))
    eqn:Hany; [done|].
  apply match_at_none in Hany. congruence.
Qed.

(** From [lastIndex] 0 the test finds a label exactly when the title
    contains one. *)
Lemma RegExp_test_fresh (labels : list string) (title : string) :
  (RegExp_test (PlainWords.match_at true labels) 0 title).1
  = title_matches labels title.
Proof.
  destruct (title_matches labels title) eqn:Hspec.
  - apply title_matches_offset in Hspec as (k & Hk & Hhere).
    unfold RegExp_test.
    destruct (search _ _ _ _) as [e|] eqn:Hsearch; [done|].
    pose proof (proj1 (search_none _ _ _ _) Hsearch k) as Hnone.
    simpl in Hnone. apply match_at_none in Hnone; [|lia]. congruence.
  - destruct (RegExp_test _ _ _).1 eqn:Htest; [|done].
    apply RegExp_test_sound in Htest. congruence.
Qed.

(** On the plain-words engine the code keeps no record that the
    specification's filter removes, ... *)
Lemma filter_test_within_spec (labels : list string) (lastIndex : nat)
    (formats : list FormatRecord) :
  filter_test (PlainWords.match_at true labels) lastIndex formats
  `sublist_of` filter (λ format, title_matches labels (title format)) formats.
Proof.
  revert lastIndex. induction formats as [|format formats IH]; intros lastIndex;
    [done|].
  simpl. rewrite filter_cons.
  destruct (RegExp_test _ lastIndex (title format)) as [[] next] eqn:Htest.
  - rewrite decide_True; [apply sublist_skip, IH|].
    apply Is_true_true, (RegExp_test_sound labels lastIndex). by rewrite Htest.
  - case_decide; [apply sublist_cons|]; apply IH.
Qed.

(** ... and the two filters keep the same first record. *)
Lemma filter_test_first_spec (labels : list string) (formats : list FormatRecord) :
  head (filter_test (PlainWords.match_at true labels) 0 formats)
  = head (filter (λ format, title_matches labels (title format)) formats).
Proof.
  rewrite filter_test_first. f_equal. apply list_filter_iff. intros format.
  by rewrite RegExp_test_fresh.
Qed.

(** *** The merged selector *)

Lemma filter_none {A} (P : A → Prop) `{!∀ x, Decision (P x)} (l : list A) :
  (∀ x, x ∈ l → ¬ P x) → filter P l = [].
Proof.
  induction l as [|x l IH]; intros Hnone; [done|].
  rewrite filter_cons, decide_False by apply Hnone, list_elem_of_here.
  apply IH. intros y Hin. by apply Hnone, list_elem_of_further.
Qed.

Lemma Object_set_elem {V} (key : string) (v : V) (o : Object V) (e : string * V) :
  e ∈ Object_set key v o → e = (key, v) ∨ e ∈ o.
Proof.
  induction o as [|[k w] o IH]; simpl.
  - intros ->%list_elem_of_singleton. by left.
  - case_bool_decide as Hkey.
    + intros [-> | Hin]%elem_of_cons.
      * left. by rewrite Hkey.
      * right. by apply list_elem_of_further.
    + intros [-> | Hin]%elem_of_cons.
      * right. apply list_elem_of_here.
      * destruct (IH Hin) as [-> | Hold]; [by left|].
        right. by apply list_elem_of_further.
Qed.

Lemma insert_by_index_elem {V} (n : N) (e : string * V)
    (sorted : list (N * (string * V))) (x : N * (string * V)) :
  x ∈ insert_by_index n e sorted → x = (n, e) ∨ x ∈ sorted.
Proof.
  induction sorted as [|[m f] sorted IH]; simpl.
  - intros ->%list_elem_of_singleton. by left.
  - destruct (n <? m)%N.
    + intros [-> | Hin]%elem_of_cons; [by left | by right].
    + intros [-> | Hin]%elem_of_cons.
      * right. apply list_elem_of_here.
      * destruct (IH Hin) as [-> | Hold]; [by left|].
        right. by apply list_elem_of_further.
Qed.

(** [Object.entries] lists properties of the object, ... *)
Lemma Object_entries_elem {V} (o : Object V) (e : string * V) :
  e ∈ Object_entries o → e ∈ o.
Proof.
  unfold Object_entries. intros [Hindexed | Hnamed]%elem_of_app.
  - apply list_elem_of_fmap in Hindexed as ([n e'] & -> & Hin). simpl.
    induction o as [|f o IH]; simpl in Hin; [by apply elem_of_nil in Hin|].
    destruct (array_index f.1).
    + apply insert_by_index_elem in Hin as [[= _ ->] | Hin].
      * apply list_elem_of_here.
      * by apply list_elem_of_further, IH.
    + by apply list_elem_of_further, IH.
  - by apply list_elem_of_filter in Hnamed as [_ Hin].
Qed.

(** ... and a spread object has its properties from its two sources. *)
Lemma Object_spread_elem {V} (a b : Object V) (e : string * V) :
  e ∈ Object_spread a b → e ∈ a ∨ e ∈ b.
Proof.
  unfold Object_spread.
  assert (Hfold : ∀ (entries acc : Object V),
    e ∈ foldl (λ o f, Object_set f.1 f.2 o) acc entries → e ∈ acc ∨ e ∈ entries).
  { induction entries as [|[k v] entries IH]; intros acc; simpl; [by left|].
    intros [[-> | Hacc]%Object_set_elem | Hrest]%IH.
    - right. apply list_elem_of_here.
    - by left.
    - right. by apply list_elem_of_further. }
  intros [Hnil | [Ha | Hb]%elem_of_app]%Hfold.
  - by apply elem_of_nil in Hnil.
  - left. by apply Object_entries_elem.
  - right. by apply Object_entries_elem.
Qed.

Section QualityFacts.
Context `{!VideoInfoProvider, !PlaylistInfoProvider, !RegExpEngine, !Constants}.

(** A selector without enabled flag, over a default without enabled
    flag, enables no label. *)
Lemma enabled_qualities_no_flag (qualitys : option (Object bool)) :
  (∀ label enabled, (label, enabled) ∈ D_Q → enabled = false) →
  (∀ label enabled, (label, enabled) ∈ default [] qualitys → enabled = false) →
  enabled_qualities qualitys = [].
Proof.
  intros Hdefault Hcaller. unfold enabled_qualities.
  rewrite filter_none; [done|].
  intros [label enabled] Hin%Object_entries_elem. simpl.
  apply Object_spread_elem in Hin as [Hin | Hin].
  - by rewrite (Hdefault _ _ Hin).
  - by rewrite (Hcaller _ _ Hin).
Qed.

(** With no label enabled the code returns the formats it was given. *)
Lemma filter_formats_by_qualitys_none_enabled (formats : list FormatRecord)
    (qualitys : option (Object bool)) :
  enabled_qualities qualitys = [] →
  filter_formats_by_qualitys formats qualitys = Normal formats.
Proof. intros Hnone. unfold filter_formats_by_qualitys. by rewrite Hnone. Qed.

(** Whatever the selector, the quality filter only removes records. *)
Lemma filter_formats_by_qualitys_sublist (formats kept : list FormatRecord)
    (qualitys : option (Object bool)) :
  filter_formats_by_qualitys formats qualitys = Normal kept →
  kept `sublist_of` formats.
Proof.
  unfold filter_formats_by_qualitys. case_bool_decide; [by intros [= ->]|].
  destruct (RegExp_new _ _) as [regExp|]; simpl; [|done].
  intros [= <-]. apply filter_test_sublist.
Qed.

(** The filters of the specification commute. *)
Lemma spec_filters_commute (formats : list FormatRecord) (types : Value)
    (qualitys : option (Object bool)) :
  filter_formats_by_types (quality_filter_spec formats qualitys) types
  = quality_filter_spec (filter_formats_by_types formats types) qualitys.
Proof.
  unfold quality_filter_spec.
  destruct (enabled_qualities qualitys) as [|label labels]; [done|].
  destruct types; try done. simpl.
  rewrite !list_filter_filter. apply list_filter_iff. tauto.
Qed.

End QualityFacts.

Example records_of_info :
  prepare_formats (RawVideoInfo.formats info) (Number 1) "Never Gonna Give You Up"
  = [record_video_only; record_with_audio].
Proof. reflexivity. Qed.

(** C4. The quality filter of the code is not the pointwise filter of the
    specification: with the selector [{ "720p": true }] and two records
    whose titles both contain [720p], the code keeps the first record
    only. The test of the first title leaves [lastIndex] at 15, behind the
    label; the test of the second title starts there, finds nothing and
    drops the record. *)
Theorem quality_filter_drops_matching_record :
  let formats := [record_video_only; record_with_audio] in
  enabled_qualities (Some only_720p) = ["720p"]
  ∧ contains_ci "720p" (title record_video_only) = true
  ∧ contains_ci "720p" (title record_with_audio) = true
  ∧ quality_filter_spec formats (Some only_720p) = formats
  ∧ RegExp_test (PlainWords.match_at true ["720p"]) 0 (title record_video_only)
    = (true, 15%nat)
  ∧ RegExp_test (PlainWords.match_at true ["720p"]) 15 (title record_with_audio)
    = (false, 0%nat)
  ∧ filter_formats_by_qualitys formats (Some only_720p)
    = Normal [record_video_only].
Proof. by vm_compute. Qed.

(** C9. The two filters of the code do not commute: on the records of
    [info], with the types [["video and audio"]] and the selector
    [{ "720p": true }], filtering by type and then by quality keeps the
    record with audio, while filtering by quality and then by type keeps
    nothing. *)
Theorem filters_do_not_commute :
  let formats := [record_video_only; record_with_audio] in
  let types := VArray [VString "video and audio"] in
  filter_formats_by_qualitys (filter_formats_by_types formats types)
    (Some only_720p)
  = Normal [record_with_audio]
  ∧ (kept ← filter_formats_by_qualitys formats (Some only_720p);
     Normal (filter_formats_by_types kept types))
    = Normal [].
Proof. by vm_compute. Qed.

End QualityFacts.

(** ** The video response assembler *)

Module AssemblerFacts.
Import Video.

Section AssemblerFacts.
Context `{!VideoInfoProvider, !PlaylistInfoProvider, !RegExpEngine, !Constants}.

Lemma getInfo_json (url_ : string) (options : GetInfoOptions) :
  VideoDataType options = None →
  getInfo url_ options
  = match filtered_formats url_ (default (Number 1) (VideoNumber options))
            (default (VArray ALL_TYPES) (Video.types options))
            (Some (default D_Q (Video.qualitys options))) with
    | Normal (details, formats) =>
        success (VideoObject (VideoDetails.videoId details)
                   (VideoDetails.title details) (VideoDetails.video_url details)
                   formats)
    | Throw message => failure ("Failed to get video info: " +:+ message)
    end.
Proof.
  intros Hjson. unfold getInfo. rewrite Hjson.
  destruct (filtered_formats _ _ _ _) as [[details formats]|message]; done.
Qed.

(** [getDownloadLink], by the outcome of the fetch-build-filter steps. *)
Lemma getDownloadLink_cases (videoUrl : string) (videoNumber : option Z)
    (types : Value) (qualitys : option (Object bool)) :
  getDownloadLink videoUrl videoNumber types qualitys
  = match filtered_formats videoUrl (Number (number_of videoNumber))
            (types_of types) (Some (qualitys_of qualitys)) with
    | Normal (_, []) =>
        success ("No download link found "
                 +:+ contextInfo videoUrl (number_of videoNumber))
    | Normal (_, first :: _) => success (url first)
    | Throw message =>
        failure ("ERROR: In Get Download Link "
                 +:+ contextInfo videoUrl (number_of videoNumber)
                 +:+ " | ERROR MESSAGE: " +:+ "Failed to get video info: "
                 +:+ message)
    end.
Proof.
  unfold getDownloadLink. rewrite getInfo_json by done. simpl.
  fold (number_of videoNumber) (types_of types) (qualitys_of qualitys).
  by destruct (filtered_formats _ _ _ _) as [[details [|first rest]]|message].
Qed.

(** A default that is already in is not replaced again. *)
Lemma getDownloadLink_defaults (videoUrl : string) (videoNumber : option Z)
    (types : Value) (qualitys : option (Object bool)) :
  getDownloadLink videoUrl (Some (number_of videoNumber)) (types_of types)
    (Some (qualitys_of qualitys))
  = getDownloadLink videoUrl videoNumber types qualitys.
Proof.
  rewrite !getDownloadLink_cases. simpl.
  by replace (types_of (types_of types)) with (types_of types)
    by by destruct types.
Qed.

(** What the fetch-build-filter steps return is in the order of the
    provider's formats. *)
Lemma filtered_formats_sublist (url_ : string) (VideoNumber : Ordinal)
    (types : Value) (qualitys : option (Object bool)) (details : VideoDetails.t)
    (formats : list FormatRecord) :
  filtered_formats url_ VideoNumber types qualitys = Normal (details, formats) →
  ∃ info,
    ytdl_getInfo url_ = Normal info
    ∧ details = RawVideoInfo.videoDetails info
    ∧ formats `sublist_of`
        prepare_formats (RawVideoInfo.formats info) VideoNumber
          (VideoDetails.title details).
Proof.
  unfold filtered_formats. destruct (ytdl_getInfo url_) as [info|]; simpl; [|done].
  destruct (filter_formats_by_qualitys _ _) as [kept|] eqn:Hkept; simpl; [|done].
  intros [= <- <-]. exists info. split; [done|]. split; [done|].
  apply QualityFacts.filter_formats_by_qualitys_sublist in Hkept.
  etrans; [exact Hkept|].
  destruct types; simpl; try done. apply sublist_filter.
Qed.

Lemma links_from_imap (i : Z) (videoUrls : list string) (types : Value)
    (qualitys : option (Object bool)) :
  links_from i videoUrls types qualitys
  = imap (λ k videoUrl,
            slot (getDownloadLink videoUrl (Some (i + Z.of_nat k + 1)) types
                    qualitys))
         videoUrls.
Proof.
  revert i. induction videoUrls as [|videoUrl rest IH]; intros i; [done|].
  simpl. rewrite Z.add_0_r. f_equal. rewrite IH.
  apply imap_ext. intros k videoUrl' _. simpl. do 3 f_equal. lia.
Qed.

(** C6. When the format list that [getInfo] returns for the filters of
    [getDownloadLink] is empty, [getDownloadLink] returns [err: false] with
    the text [No download link found | N: <n> | url: <url>]; when it is not
    empty, [getDownloadLink] returns the URL of its first record. The list
    is a sublist of the records built from the provider's formats, in the
    provider's order: the filters remove records and move none. *)
Theorem getDownloadLink_first_format (videoUrl : string) (videoNumber : option Z)
    (types : Value) (qualitys : option (Object bool))
    (id title video_url : string) (formats : list FormatRecord) :
  data (getInfo videoUrl (link_options videoNumber types qualitys))
  = Some (VideoObject id title video_url formats) →
  (formats = [] →
   getDownloadLink videoUrl videoNumber types qualitys
   = {| data := Some ("No download link found | N: "
                      +:+ String_of_Z (number_of videoNumber) +:+ " | url: "
                      +:+ videoUrl);
        err := false; err_msg := "" |})
  ∧ (∀ first rest, formats = first :: rest →
     getDownloadLink videoUrl videoNumber types qualitys
     = {| data := Some (url first); err := false; err_msg := "" |})
  ∧ ∃ info,
      ytdl_getInfo videoUrl = Normal info
      ∧ formats `sublist_of`
          prepare_formats (RawVideoInfo.formats info)
            (Number (number_of videoNumber))
            (VideoDetails.title (RawVideoInfo.videoDetails info)).
Proof.
  rewrite getInfo_json by done. rewrite getDownloadLink_cases. simpl.
  destruct (filtered_formats _ _ _ _) as [[details kept]|message] eqn:Hsteps;
    simpl; [|done].
  intros [= _ _ _ ->]. split; [|split].
  - by intros ->.
  - by intros first rest ->.
  - apply filtered_formats_sublist in Hsteps as (info & Hinfo & -> & Hsub).
    by exists info.
Qed.

(** C5. For a list of URLs, [getDownloadLinkForMany] returns [err: false]
    and the slots joined by a blank line, where the slot of the item at
    index [k] is made from [getDownloadLink] on that URL with the ordinal
    [k + 1] and the given filters: its error message when it fails, its
    link when it succeeds. A single URL is treated as the list of that one
    URL. When the provider fails on ["badurl"], the result for
    [["badurl"]] is the error text of that item, with [err: false]. *)
Theorem getDownloadLinkForMany_correct (videoUrls : list string) (types : Value)
    (qualitys : option (Object bool)) :
  getDownloadLinkForMany (ManyUrls videoUrls) types qualitys
  = {| data :=
         Some (Array_join (LF +:+ LF)
                 (imap (λ k videoUrl,
                          let response :=
                            getDownloadLink videoUrl (Some (Z.of_nat k + 1)) types
                              qualitys in
                          if err response then err_msg response
                          else default "" (data response))
                       videoUrls));
       err := false; err_msg := "" |}
  ∧ (∀ videoUrl,
       getDownloadLinkForMany (OneUrl videoUrl) types qualitys
       = getDownloadLinkForMany (ManyUrls [videoUrl]) types qualitys)
  ∧ (∀ cause, ytdl_getInfo "badurl" = Throw cause →
     getDownloadLinkForMany (ManyUrls ["badurl"]) types qualitys
     = {| data :=
            Some ("ERROR: In Get Download Link | N: 1 | url: badurl"
                  +:+ " | ERROR MESSAGE: Failed to get video info: " +:+ cause);
          err := false; err_msg := "" |}).
Proof.
  assert (Hmany : ∀ urls,
    getDownloadLinkForMany (ManyUrls urls) types qualitys
    = success (Array_join (LF +:+ LF)
                 (imap (λ k videoUrl,
                          slot (getDownloadLink videoUrl (Some (Z.of_nat k + 1))
                                  types qualitys))
                       urls))).
  { intros urls. unfold getDownloadLinkForMany. simpl. rewrite links_from_imap.
    do 2 f_equal. apply imap_ext. intros k videoUrl _. simpl. f_equal.
    apply (getDownloadLink_defaults videoUrl (Some (Z.of_nat k + 1))). }
  split; [apply Hmany | split; [done|]].
  intros cause Hbad. rewrite Hmany. simpl. unfold slot.
  rewrite getDownloadLink_cases. unfold filtered_formats. rewrite Hbad. done.
Qed.

End AssemblerFacts.

Import Scenario.

Lemma getDownloadLink_first_format_witness :
  getDownloadLink watch_url None VUndefined (Some only_720p)
  = success (url record_with_audio).
Proof.
  refine (proj1 (proj2 (getDownloadLink_first_format watch_url None VUndefined
                          (Some only_720p) "dQw4w9WgXcQ" "Never Gonna Give You Up"
                          watch_url [record_with_audio] _))
            record_with_audio [] eq_refl).
  vm_compute. reflexivity.
Defined.

Lemma getDownloadLinkForMany_correct_witness :
  getDownloadLinkForMany (ManyUrls ["badurl"]) VUndefined None
  = success
      "ERROR: In Get Download Link | N: 1 | url: badurl | ERROR MESSAGE: Failed to get video info: Not a YouTube domain".
Proof.
  exact (proj2 (proj2 (getDownloadLinkForMany_correct [] VUndefined None))
           "Not a YouTube domain" eq_refl).
Defined.

End AssemblerFacts.

(** ** The playlist download orchestrator *)

Module OrchestratorFacts.
Import Playlist.

Section OrchestratorFacts.
Context `{!VideoInfoProvider, !PlaylistInfoProvider, !RegExpEngine, !Constants}.

Lemma download_step_link (videos : gmap string PlaylistVideo) (types : Value)
    (qualitys : Object bool) (downloadLinks : DownloadLinks) (videoIndex : Z) :
  download_step videos types qualitys downloadLinks videoIndex
  = addLink downloadLinks (link_of videos types qualitys videoIndex).
Proof.
  unfold download_step, link_of.
  by destruct (video_url <$> videos !! String_of_Z videoIndex) as [[|c rest]|].
Qed.

(** In array mode the loop appends one link for each ordinal, in order. *)
Lemma download_loop_array (videos : gmap string PlaylistVideo) (types : Value)
    (qualitys : Object bool) (links : list Link) (ordinals : list Z) :
  foldl (download_step videos types qualitys) (LinksArray links) ordinals
  = LinksArray (links ++ (link_of videos types qualitys <$> ordinals)).
Proof.
  revert links. induction ordinals as [|videoIndex ordinals IH]; intros links; simpl.
  - by rewrite app_nil_r.
  - rewrite download_step_link. simpl. rewrite IH. by rewrite <-app_assoc.
Qed.

(** In text mode the loop appends one line for each ordinal, in order. *)
Lemma download_loop_text (videos : gmap string PlaylistVideo) (types : Value)
    (qualitys : Object bool) (text : string) (ordinals : list Z) :
  foldl (download_step videos types qualitys) (LinksText text) ordinals
  = LinksText
      (foldl (λ text videoIndex,
                text +:+ String_of_Link (link_of videos types qualitys videoIndex)
                +:+ LF)
             text ordinals).
Proof.
  revert text. induction ordinals as [|videoIndex ordinals IH]; intros text; simpl.
  - done.
  - rewrite download_step_link. simpl. by rewrite IH.
Qed.

(** What the code returns in array mode once the range is validated and
    the playlist fetched: one link for each ordinal of the range, in
    order; the link of an entry with a URL is the response of
    [Video.getDownloadLink]. *)
Lemma getDownloadsLinks_array (url_ : string) (options : GetDownloadsLinksOptions)
    (from to : Z) (PlaylistData : PlaylistData.t) :
  VideoDataType options = None →
  prepare_from_to url_ (default RNull (opt_from options))
    (default RNull (opt_to options))
  = {| succ := true; msg_err := ""; Playlist.from := Some from;
       Playlist.to := Some to |} →
  getInfo url_ false = success PlaylistData →
  getDownloadsLinks url_ options
  = success
      (LinksArray
         (link_of (PlaylistData.videos PlaylistData)
            (default (VArray [VString "video and audio"]) (types options))
            (default D_Q (qualitys options))
          <$> seqZ from (to - from + 1))).
Proof.
  intros Hjson Hrange Hinfo. unfold getDownloadsLinks.
  rewrite Hjson, Hrange, Hinfo. simpl. by rewrite download_loop_array.
Qed.

End OrchestratorFacts.

Import Scenario.

(** C2. The slot of an entry that has a URL is not the [results] string
    of [getDownloadLink] but the whole response object: for the first two
    entries of [playlist], the first slot is the object
    [{ results: <url>, err: false, err_msg: "" }] and the second is the
    placeholder; in text mode the first line is [[object Object]]. *)
Theorem getDownloadsLinks_slot_is_response :
  Video.getDownloadLink watch_url (Some 1) (VArray [VString "video and audio"])
    (Some D_Q)
  = success (Video.url record_with_audio)
  ∧ getDownloadsLinks playlist_url first_two
    = success
        (LinksArray
           [LinkResponse (success (Video.url record_with_audio));
            LinkText "Video URL not found | N: 2"])
  ∧ getDownloadsLinks playlist_url first_two_as_text
    = success
        (LinksText
           ("[object Object]" +:+ LF +:+ "Video URL not found | N: 2" +:+ LF)).
Proof. by vm_compute. Qed.

End OrchestratorFacts.

(** ** The response envelope *)

Module EnvelopeFacts.

Lemma success_invariant {T} (payload : T) : envelope_invariant (success payload).
Proof. by split. Qed.

Lemma failure_invariant {T} (message : string) :
  message ≠ "" → envelope_invariant (failure (T:=T) message).
Proof. by split. Qed.

Lemma failure_shape {T} (message : string) : envelope_shape (failure (T:=T) message).
Proof. by split. Qed.

Lemma invariant_shape {T} (response : Response T) :
  envelope_invariant response → envelope_shape response.
Proof. intros [Herr Hok]. split; [apply Herr | done]. Qed.

Lemma prefixed_not_empty (c : ascii) (context cause : string) :
  String c context +:+ cause ≠ "".
Proof. done. Qed.

Create HintDb envelope.
#[local] Hint Resolve success_invariant failure_invariant failure_shape
  invariant_shape prefixed_not_empty : envelope.

(** A response that hands on the message of the cause. *)
Lemma handed_on {A T} (fetch : Completion A) (payload : A → T) :
  let response :=
    try_catch (a ← fetch; Normal (success (payload a))) (λ message, failure message) in
  envelope_shape response
  ∧ ((∀ cause, fetch = Throw cause → cause ≠ "") → envelope_invariant response).
Proof.
  destruct fetch as [a|cause]; simpl.
  - split; [|intros _]; auto with envelope.
  - split; [|intros Hcause]; auto with envelope.
Qed.

Section EnvelopeFacts.
Context `{!VideoInfoProvider, !PlaylistInfoProvider, !RegExpEngine, !Constants}.
Context {RawResult RawItem VideoItem PlaylistFields PlaylistItem Recommendations : Type}.
Context (ytsr : string → string → option Z → Completion RawResult).
Context (raw_items : RawResult → Completion (list RawItem)).
Context (video_item : RawItem → Completion VideoItem).
Context (playlist_fields : RawItem → Completion PlaylistFields).
Context (playlist_url : PlaylistFields → string).
Context (playlist_item : PlaylistFields → option Z → PlaylistItem).
Context (prepare_results : RawVideoInfo.t → Completion Recommendations).

Lemma Video_getInfo_invariant (url_ : string) (options : Video.GetInfoOptions) :
  envelope_invariant (Video.getInfo url_ options).
Proof.
  unfold Video.getInfo.
  destruct (Video.filtered_formats _ _ _ _) as [[details formats]|message];
    simpl; auto with envelope.
Qed.

Lemma getDownloadLink_invariant (videoUrl : string) (videoNumber : option Z)
    (types : Value) (qualitys : option (Object bool)) :
  envelope_invariant (Video.getDownloadLink videoUrl videoNumber types qualitys).
Proof.
  rewrite AssemblerFacts.getDownloadLink_cases.
  destruct (Video.filtered_formats _ _ _ _) as [[details [|first rest]]|message];
    auto with envelope.
Qed.

Lemma getDownloadLinkForMany_invariant (videoUrls : Video.VideoUrls)
    (types : Value) (qualitys : option (Object bool)) :
  envelope_invariant (Video.getDownloadLinkForMany videoUrls types qualitys).
Proof. unfold Video.getDownloadLinkForMany. simpl. auto with envelope. Qed.

Lemma Playlist_getInfo_invariant (url_ : string) (withDownloadLinks : bool) :
  envelope_invariant (Playlist.getInfo url_ withDownloadLinks).
Proof.
  unfold Playlist.getInfo. destruct (ytpl _ _) as [playlist|message]; simpl;
    auto with envelope.
Qed.

(** The range validator either accepts with a pair or refuses with a
    message. *)
Lemma prepareRange_cases (numberVideo : Z) (from to : Playlist.RangeArg) :
  (∃ f t, Playlist.prepareRange numberVideo from to
          = {| Playlist.succ := true; Playlist.msg_err := "";
               Playlist.from := Some f; Playlist.to := Some t |})
  ∨ (∃ c message, Playlist.prepareRange numberVideo from to
                  = Playlist.range_error (String c message)).
Proof.
  unfold Playlist.prepareRange.
  destruct (_ || _); [right; eauto|].
  destruct (_ <? _); [right; eauto|].
  destruct (_ || _); [right; eauto|].
  left; eauto.
Qed.

Lemma prepare_from_to_cases (url_ : string) (from to : Playlist.RangeArg) :
  (∃ f t, Playlist.prepare_from_to url_ from to
          = {| Playlist.succ := true; Playlist.msg_err := "";
               Playlist.from := Some f; Playlist.to := Some t |})
  ∨ (∃ c message, Playlist.prepare_from_to url_ from to
                  = Playlist.range_error (String c message)).
Proof.
  unfold Playlist.prepare_from_to.
  destruct (err (Playlist.numberVideo url_)); [right; eauto|].
  destruct (data (Playlist.numberVideo url_)); [|right; eauto].
  apply prepareRange_cases.
Qed.

Lemma getDownloadsLinks_invariant (url_ : string)
    (options : Playlist.GetDownloadsLinksOptions) :
  envelope_invariant (Playlist.getDownloadsLinks url_ options).
Proof.
  unfold Playlist.getDownloadsLinks.
  destruct (prepare_from_to_cases url_ (default Playlist.RNull (Playlist.opt_from options))
              (default Playlist.RNull (Playlist.opt_to options)))
    as [(f & t & ->) | (c & message & ->)]; simpl; [|auto with envelope].
  destruct (err (Playlist.getInfo url_ false)); simpl; [auto with envelope|].
  destruct (data (Playlist.getInfo url_ false)); simpl; auto with envelope.
Qed.

Lemma searchVideos_invariant (query : string) :
  envelope_invariant (YoutubeSearch.searchVideos ytsr raw_items video_item query).
Proof.
  unfold YoutubeSearch.searchVideos.
  destruct (ytsr _ _ _) as [result|]; simpl; [|auto with envelope].
  destruct (raw_items result) as [allItems|]; simpl; [|auto with envelope].
  destruct (YoutubeSearch.for_each _ _); simpl; auto with envelope.
Qed.

Lemma searchPlaylists_invariant (query : string) :
  envelope_invariant
    (YoutubeSearch.searchPlaylists ytsr raw_items playlist_fields playlist_url
       playlist_item query).
Proof.
  unfold YoutubeSearch.searchPlaylists.
  destruct (ytsr _ _ _) as [result|]; simpl; [|auto with envelope].
  destruct (raw_items result) as [playlists|]; simpl; [|auto with envelope].
  destruct (YoutubeSearch.for_each _ _); simpl; auto with envelope.
Qed.

Lemma search_invariant (type query : string) :
  envelope_invariant
    (YoutubeSearch.search ytsr raw_items video_item playlist_fields playlist_url
       playlist_item type query).
Proof.
  unfold YoutubeSearch.search. repeat case_bool_decide.
  - destruct (searchVideos_invariant query) as [Herr Hok].
    split; simpl; [|done]. intros Htrue. destruct (Herr Htrue) as [-> ?]. done.
  - destruct (searchPlaylists_invariant query) as [Herr Hok].
    split; simpl; [|done]. intros Htrue. destruct (Herr Htrue) as [-> ?]. done.
  - auto with envelope.
Qed.

Lemma videoAndRecommendations_shape (url_ : string) :
  let response := YoutubeSearch.videoAndRecommendations prepare_results url_ in
  envelope_shape response
  ∧ ((∀ cause, ytdl_getInfo url_ = Throw cause → cause ≠ "") →
     envelope_invariant response).
Proof.
  unfold YoutubeSearch.videoAndRecommendations, Video.main_getInfo.
  destruct (ytdl_getInfo url_) as [info|cause]; simpl.
  - destruct (prepare_results info); simpl; split; auto with envelope.
  - split; [by split|]. intros Hcause. split; [|done].
    intros _. split; [done|]. by apply Hcause.
Qed.

(** C7, amended. Every public operation returns an envelope in which an
    error has no payload and a success has the empty message. The error
    message is not empty for the operations that put their own context in
    front of the cause: [Video.getInfo], [Video.getDownloadLink],
    [Video.getDownloadLinkForMany], [Playlist.getInfo],
    [Playlist.getDownloadsLinks], [searchVideos], [searchPlaylists] and
    [search]. [Playlist.numberVideo], [Playlist.main_ytpl],
    [Video.main_getInfo], [main_ytsr] and the provider-failure branch of
    [videoAndRecommendations] hand on the provider's message unchanged:
    their error message is not empty whenever the provider's is not. *)
Theorem envelope_of_every_operation :
  (∀ url_ options, envelope_invariant (Video.getInfo url_ options))
  ∧ (∀ videoUrl videoNumber types qualitys,
       envelope_invariant
         (Video.getDownloadLink videoUrl videoNumber types qualitys))
  ∧ (∀ videoUrls types qualitys,
       envelope_invariant (Video.getDownloadLinkForMany videoUrls types qualitys))
  ∧ (∀ url_ withDownloadLinks,
       envelope_invariant (Playlist.getInfo url_ withDownloadLinks))
  ∧ (∀ url_ options, envelope_invariant (Playlist.getDownloadsLinks url_ options))
  ∧ (∀ query,
       envelope_invariant
         (YoutubeSearch.searchVideos ytsr raw_items video_item query))
  ∧ (∀ query,
       envelope_invariant
         (YoutubeSearch.searchPlaylists ytsr raw_items playlist_fields
            playlist_url playlist_item query))
  ∧ (∀ type query,
       envelope_invariant
         (YoutubeSearch.search ytsr raw_items video_item playlist_fields
            playlist_url playlist_item type query))
  ∧ (∀ url_,
       envelope_shape (Playlist.numberVideo url_)
       ∧ ((∀ cause, ytpl url_ None = Throw cause → cause ≠ "") →
          envelope_invariant (Playlist.numberVideo url_)))
  ∧ (∀ url_ limit,
       envelope_shape (Playlist.main_ytpl url_ limit)
       ∧ ((∀ cause, ytpl url_ (Some (VNumber (default 1 limit))) = Throw cause →
           cause ≠ "") →
          envelope_invariant (Playlist.main_ytpl url_ limit)))
  ∧ (∀ url_,
       envelope_shape (Video.main_getInfo url_)
       ∧ ((∀ cause, ytdl_getInfo url_ = Throw cause → cause ≠ "") →
          envelope_invariant (Video.main_getInfo url_)))
  ∧ (∀ type query,
       envelope_shape (YoutubeSearch.main_ytsr ytsr type query)
       ∧ ((∀ cause, ytsr query type None = Throw cause → cause ≠ "") →
          envelope_invariant (YoutubeSearch.main_ytsr ytsr type query)))
  ∧ (∀ url_,
       envelope_shape (YoutubeSearch.videoAndRecommendations prepare_results url_)
       ∧ ((∀ cause, ytdl_getInfo url_ = Throw cause → cause ≠ "") →
          envelope_invariant
            (YoutubeSearch.videoAndRecommendations prepare_results url_))).
Proof.
  split; [exact Video_getInfo_invariant|].
  split; [exact getDownloadLink_invariant|].
  split; [exact getDownloadLinkForMany_invariant|].
  split; [exact Playlist_getInfo_invariant|].
  split; [exact getDownloadsLinks_invariant|].
  split; [exact searchVideos_invariant|].
  split; [exact searchPlaylists_invariant|].
  split; [exact search_invariant|].
  split; [intros url_; apply (handed_on (ytpl url_ None))|].
  split; [intros url_ limit; apply (handed_on (ytpl url_ _) id)|].
  split; [intros url_; apply (handed_on (ytdl_getInfo url_) id)|].
  split; [intros type query; apply (handed_on (ytsr query type None) id)|].
  exact videoAndRecommendations_shape.
Qed.

End EnvelopeFacts.

Import Scenario.

(** When the provider fails without message, [numberVideo] returns an
    error whose message is empty. *)
Lemma numberVideo_empty_message :
  let response := @Playlist.numberVideo silent_failure Scenario.playlist_url in
  err response = true
  ∧ err_msg response = ""
  ∧ ¬ envelope_invariant response.
Proof.
  split; [reflexivity|]. split; [reflexivity|].
  intros [Herr _]. destruct (Herr eq_refl) as [_ Hmessage]. by apply Hmessage.
Qed.

Lemma envelope_of_every_operation_witness :
  Playlist.numberVideo unknown_playlist_url = failure "Unknown Playlist"
  ∧ envelope_invariant (Playlist.numberVideo unknown_playlist_url).
Proof.
  split; [reflexivity|].
  pose proof (envelope_of_every_operation
                (RawItem:=unit) (VideoItem:=unit) (PlaylistFields:=unit)
                (PlaylistItem:=unit) (Recommendations:=unit)
                offline (λ _, Normal []) (λ _, Normal ()) (λ _, Normal ())
                (λ _, "") (λ _ _, ()) (λ _, Normal ())) as Hall.
  destruct Hall as (_ & _ & _ & _ & _ & _ & _ & _ & Hnumber & _).
  apply (Hnumber unknown_playlist_url).
  vm_compute. intros cause Hcause. injection Hcause as <-. discriminate.
Defined.

End EnvelopeFacts.

(** ** Strings *)

Module StringFacts.

(** [trim] removes a leading character of [WhiteSpace], whatever follows
    it. *)
Lemma trim_leading_white_space (code : N) (s : string) :
  code ∈ WhiteSpace → trim (UTF8 code +:+ s) = trim s.
Proof.
  intros Hin. unfold WhiteSpace in Hin.
  repeat (apply elem_of_cons in Hin as [-> | Hin]; [reflexivity|]).
  by apply elem_of_nil in Hin.
Qed.

(** Around a word, [trim] removes every character of [WhiteSpace], and it
    keeps the next-line character U+0085, the Mongolian vowel separator
    U+180E and the zero-width space U+200B, which ECMAScript does not count
    as white space. *)
Lemma trim_around_word :
  Forall (λ code, trim (UTF8 code +:+ "text" +:+ UTF8 code) = "text") WhiteSpace
  ∧ Forall (λ code, trim (UTF8 code +:+ "text" +:+ UTF8 code)
                    = UTF8 code +:+ "text" +:+ UTF8 code)
      [0x85; 0x180E; 0x200B]%N
  ∧ trim (UTF8 0xE0 +:+ " la carte " +:+ UTF8 0xE0)
    = UTF8 0xE0 +:+ " la carte " +:+ UTF8 0xE0.
Proof. split; [|split]; [| |reflexivity]; repeat (constructor; [reflexivity|]); constructor. Qed.

Lemma app_String (c : ascii) (s t : string) :
  String c s +:+ t = String c (s +:+ t).
Proof. done. Qed.

Lemma app_empty_r (s : string) : s +:+ "" = s.
Proof. induction s as [|c s IH]; [done|]. by rewrite app_String, IH. Qed.

Lemma app_assoc (s t u : string) : (s +:+ t) +:+ u = s +:+ t +:+ u.
Proof. induction s as [|c s IH]; [done|]. by rewrite !app_String, IH. Qed.

Lemma length_app (s t : string) :
  String.length (s +:+ t) = (String.length s + String.length t)%nat.
Proof. induction s as [|c s IH]; [done|]. rewrite app_String. simpl. by rewrite IH. Qed.

Lemma drop_string_app (s t : string) : drop_string (String.length s) (s +:+ t) = t.
Proof. induction s as [|c s IH]; [done|]. by rewrite app_String. Qed.

Lemma take_string_app (s t : string) : take_string (String.length s) (s +:+ t) = s.
Proof.
  induction s as [|c s IH]; [by destruct t|]. rewrite app_String. simpl. by rewrite IH.
Qed.

Lemma starts_with_app (ci : bool) (s t : string) : starts_with ci s (s +:+ t) = true.
Proof.
  induction s as [|c s IH]; [done|]. rewrite app_String. simpl. rewrite IH.
  by destruct ci; rewrite bool_decide_eq_true_2.
Qed.

(** A text contains what it is built around. *)
Lemma contains_ci_app (label before after : string) :
  contains_ci label (before +:+ label +:+ after) = true.
Proof.
  apply QualityFacts.contains_ci_offset. exists (String.length before). split.
  - rewrite length_app. lia.
  - rewrite drop_string_app. apply starts_with_app.
Qed.

Lemma contains_ci_cons (label : string) (c : ascii) (rest : string) :
  contains_ci label (String c rest)
  = starts_with true label (String c rest) || contains_ci label rest.
Proof. done. Qed.

(** *** Decimal numerals *)

Lemma String_of_Z_inj (a b : Z) : String_of_Z a = String_of_Z b → a = b.
Proof.
  unfold String_of_Z. intros Heq. apply DecimalZ.to_int_inj.
  assert (Hparse : ∀ z, NilZero.int_of_string (NilZero.string_of_int (Z.to_int z))
                        = Some (Z.to_int z)).
  { intros z. apply NilZero.isi; destruct z; simpl; try done;
      intros [= Hnil]; by apply DecimalPos.Unsigned.to_uint_nonnil in Hnil. }
  pose proof (Hparse a) as Ha. rewrite Heq, Hparse in Ha. congruence.
Qed.

Lemma has_char_app (c : ascii) (s t : string) :
  PlainWords.has_char c (s +:+ t) = PlainWords.has_char c s || PlainWords.has_char c t.
Proof.
  induction s as [|d s IH]; [done|]. rewrite app_String. simpl.
  by rewrite IH, orb_assoc.
Qed.

Lemma uint_no_dollar (d : Decimal.uint) :
  PlainWords.has_char "$" (NilEmpty.string_of_uint d) = false.
Proof. induction d; simpl; done. Qed.

Lemma String_of_Z_no_dollar (n : Z) : PlainWords.has_char "$" (String_of_Z n) = false.
Proof.
  unfold String_of_Z, NilZero.string_of_int, NilZero.string_of_uint.
  destruct (Z.to_int n) as [d|d]; destruct d; simpl; try done;
    apply uint_no_dollar.
Qed.

(** *** Replacement *)

(** A template without dollar sign stands for itself. *)
Lemma substitution_plain (matched before after template : string) :
  PlainWords.has_char "$" template = false →
  substitution matched before after template = template.
Proof.
  induction template as [|c template IH]; [done|].
  intros Hno. simpl in Hno. apply orb_false_iff in Hno as [Hc Hrest].
  specialize (IH Hrest).
  destruct c as [[] [] [] [] [] [] [] []]; simpl; try (by rewrite IH);
    by apply bool_decide_eq_false in Hc.
Qed.

Lemma replace_go_no_match (lit template before s : string) :
  contains_ci lit s = false → replace_go lit template before s 0 = s.
Proof.
  revert before. induction s as [|c s IH]; intros before; [done|].
  rewrite contains_ci_cons. intros [Hhere Hlater]%orb_false_iff.
  simpl. rewrite Hhere. f_equal. by apply IH.
Qed.

Lemma replace_go_skip (lit template before passed s : string) :
  replace_go lit template before (passed +:+ s) (String.length passed)
  = replace_go lit template (before +:+ passed) s 0.
Proof.
  revert before. induction passed as [|c passed IH]; intros before.
  - by rewrite app_empty_r.
  - rewrite app_String. simpl. rewrite IH. by rewrite app_assoc.
Qed.

(** The replacement in a text with one occurrence of the literal. *)
Lemma replace_go_one (lit template before p m a : string) :
  String.length m = String.length lit →
  lit ≠ "" →
  starts_with true lit (m +:+ a) = true →
  (∀ k, (k < String.length p)%nat →
        starts_with true lit (drop_string k (p +:+ m +:+ a)) = false) →
  contains_ci lit a = false →
  replace_go lit template before (p +:+ m +:+ a) 0
  = p +:+ substitution m (before +:+ p) a template +:+ a.
Proof.
  intros Hlength Hlit Hmatch Hfirst Hlast. revert before Hfirst.
  induction p as [|c p IH]; intros before Hfirst.
  - rewrite app_empty_r. change ("" +:+ m +:+ a) with (m +:+ a).
    change ("" +:+ ?x) with x.
    destruct m as [|c m]; [by destruct lit|].
    rewrite app_String in *. simpl. rewrite Hmatch.
    rewrite <-Hlength. simpl.
    rewrite take_string_app, drop_string_app, replace_go_skip.
    by rewrite replace_go_no_match.
  - rewrite app_String. simpl.
    pose proof (Hfirst O) as Hhere. rewrite app_String in Hhere. simpl in Hhere.
    rewrite Hhere by (simpl; lia).
    rewrite (IH (before +:+ String c "")).
    + rewrite !app_String. by rewrite app_assoc.
    + intros k Hk. apply (Hfirst (S k)). simpl. lia.
Qed.

End StringFacts.

(** ** The format pipeline, beyond the claims *)

Module VideoProperties.
Import Video StringFacts.

Lemma lower_char_idemp (c : ascii) : lower_char (lower_char c) = lower_char c.
Proof. by destruct c as [[] [] [] [] [] [] [] []]. Qed.

Lemma length_toLowerCase (s : string) :
  String.length (toLowerCase s) = String.length s.
Proof. induction s as [|c s IH]; [done|]. simpl. by rewrite IH. Qed.

Lemma starts_with_toLowerCase (m a : string) :
  starts_with true (toLowerCase m) (m +:+ a) = true.
Proof.
  induction m as [|c m IH]; [done|]. rewrite app_String. simpl.
  by rewrite IH, lower_char_idemp, bool_decide_eq_true_2.
Qed.

Lemma sanitize_char_safe (c : ascii) :
  path_unsafe (if path_unsafe c then "~"%char else c) = false.
Proof. destruct (path_unsafe c) eqn:Hc; done. Qed.

Lemma has_dollar_sanitize (videoTitle : string) :
  PlainWords.has_char "$" (sanitize videoTitle) = PlainWords.has_char "$" videoTitle.
Proof.
  induction videoTitle as [|c rest IH]; [done|]. simpl. rewrite IH. f_equal.
  fold (path_unsafe c). destruct (path_unsafe c) eqn:Hc; [|done].
  unfold path_unsafe in Hc.
  repeat case_bool_decide; simplify_eq; done.
Qed.

(** X1. The builder drops exactly the descriptors without [mimeType]:
    the [mimeType]s of the records are those of the descriptors that have
    one, in the same order. *)
Theorem prepare_formats_mimeTypes (formats : list RawFormat.t)
    (videoNumber : Ordinal) (videoTitle : string) :
  mimeType <$> prepare_formats formats videoNumber videoTitle
  = omap RawFormat.mimeType formats.
Proof.
  unfold prepare_formats. induction formats as [|format formats IH]; [done|].
  csimpl. destruct (RawFormat.mimeType format); csimpl; by rewrite IH.
Qed.

(** X2. The sanitized title has the length of the title and none of the
    characters [/], [|] and [#]; a title without these characters is
    left as it is. *)
Theorem sanitize_safe (videoTitle : string) :
  String.length (sanitize videoTitle) = String.length videoTitle
  ∧ (∀ c, c ∈ chars (sanitize videoTitle) → path_unsafe c = false)
  ∧ ((∀ c, c ∈ chars videoTitle → path_unsafe c = false) →
     sanitize videoTitle = videoTitle).
Proof.
  induction videoTitle as [|c rest (IHlength & IHsafe & IHfixed)].
  - split; [done|]. split; [|done]. by intros c ?%elem_of_nil.
  - split; [simpl; by rewrite IHlength|]. split.
    + simpl. fold (path_unsafe c). intros d [-> | Hin]%elem_of_cons.
      * apply sanitize_char_safe.
      * by apply IHsafe.
    + intros Hsafe. simpl. fold (path_unsafe c).
      rewrite (Hsafe c) by apply list_elem_of_here.
      f_equal. apply IHfixed. intros d Hin. by apply Hsafe, list_elem_of_further.
Qed.

(** X3. When no URL of the descriptors contains [/videoplayback?] (in
    any letter case), the URLs of the records are the URLs of the
    descriptors that have a [mimeType], unchanged. *)
Theorem url_without_marker_unchanged (formats : list RawFormat.t)
    (videoNumber : Ordinal) (videoTitle : string) :
  (∀ format, format ∈ formats →
     contains_ci "/videoplayback?" (RawFormat.url format) = false) →
  url <$> prepare_formats formats videoNumber videoTitle
  = omap (λ format, RawFormat.mimeType format ≫= λ _, Some (RawFormat.url format))
      formats.
Proof.
  unfold prepare_formats. induction formats as [|format formats IH]; [done|].
  intros Hnone. csimpl.
  destruct (RawFormat.mimeType format); csimpl.
  - unfold replace_all_ci.
    rewrite replace_go_no_match by apply Hnone, list_elem_of_here.
    f_equal. apply IH. intros other Hin. by apply Hnone, list_elem_of_further.
  - apply IH. intros other Hin. by apply Hnone, list_elem_of_further.
Qed.

(** X4. When the URL of a descriptor contains [/videoplayback?] (in any
    letter case) exactly once and the title has no dollar sign, the URL of
    its record is the descriptor's URL with that occurrence replaced by
    [/videoplayback/<n> - <sanitized title>?]. *)
Theorem url_embeds_number_and_title (format : RawFormat.t) (mime : string)
    (n : Z) (videoTitle before marker after : string) :
  RawFormat.mimeType format = Some mime →
  RawFormat.url format = before +:+ marker +:+ after →
  toLowerCase marker = "/videoplayback?" →
  (∀ k, (k < String.length before)%nat →
        starts_with true "/videoplayback?"
          (drop_string k (before +:+ marker +:+ after)) = false) →
  contains_ci "/videoplayback?" after = false →
  PlainWords.has_char "$" videoTitle = false →
  url <$> prepare_formats [format] (Number n) videoTitle
  = [before +:+ "/videoplayback/" +:+ String_of_Z n +:+ " - "
     +:+ sanitize videoTitle +:+ "?" +:+ after].
Proof.
  intros Hmime Hurl Hmarker Hfirst Hlast Hdollar.
  unfold prepare_formats. csimpl. rewrite Hmime. csimpl.
  unfold replace_all_ci. rewrite Hurl. f_equal.
  rewrite replace_go_one; try done.
  - rewrite substitution_plain; [by rewrite !app_assoc|].
    rewrite !has_char_app, String_of_Z_no_dollar, has_dollar_sanitize, Hdollar.
    done.
  - by rewrite <-Hmarker, length_toLowerCase.
  - rewrite <-Hmarker. apply starts_with_toLowerCase.
Qed.


(** X5. The title of a built record contains the record's quality
    label, so the title search for a list of labels that has this label
    finds it. *)
Theorem title_contains_quality (formats : list RawFormat.t) (videoNumber : Ordinal)
    (videoTitle : string) (record : FormatRecord) (label : string)
    (labels : list string) :
  record ∈ prepare_formats formats videoNumber videoTitle →
  quality record = Present label →
  label ∈ labels →
  title_matches labels (title record) = true.
Proof.
  intros Hin Hquality Hlabel.
  apply BuilderFacts.elem_of_prepare_formats in Hin
    as (format & mime & Hformat & Hmime & ->).
  simpl in *. rewrite Hquality.
  unfold title_matches. apply existsb_exists. exists label.
  split; [by apply list_elem_of_In|].
  rewrite <-app_assoc. apply contains_ci_app.
Qed.

(** *** The engine for plain words on the patterns of the quality filter *)

Lemma rev_app_app (s t u : string) :
  String.rev_app (s +:+ t) u = String.rev_app t (String.rev_app s u).
Proof.
  revert u. induction s as [|c s IH]; intros u; [done|].
  rewrite app_String. simpl. apply IH.
Qed.

Lemma rev_app_rev_app (s t u : string) :
  String.rev_app (String.rev_app s t) u = String.rev_app t (s +:+ u).
Proof.
  revert t. induction s as [|c s IH]; intros t; [done|].
  simpl. by rewrite IH.
Qed.

Lemma rev_involutive (s : string) : String.rev (String.rev s) = s.
Proof. unfold String.rev. rewrite rev_app_rev_app. simpl. apply app_empty_r. Qed.

Lemma word_char_not_bar (c : ascii) :
  PlainWords.is_word_char c = true → bool_decide (c = "|"%char) = false.
Proof. by destruct c as [[] [] [] [] [] [] [] []]. Qed.

Lemma words_between_bars_word (word current rest : string) :
  plain_word word = true →
  PlainWords.words_between_bars current (word +:+ rest)
  = PlainWords.words_between_bars (String.rev_app word current) rest.
Proof.
  revert current. induction word as [|c word IH]; intros current; [done|].
  simpl. intros [Hc Hword]%andb_true_iff.
  rewrite (word_char_not_bar c Hc), Hc. by apply IH.
Qed.

Lemma words_between_bars_bar (current rest : string) :
  PlainWords.words_between_bars current (String "|" rest)
  = (String.rev current ::.) <$> PlainWords.words_between_bars "" rest.
Proof. done. Qed.

Lemma words_between_bars_join (labels : list string) :
  labels ≠ [] →
  Forall (λ label, plain_word label = true) labels →
  PlainWords.words_between_bars "" (Array_join "|" labels) = Some labels.
Proof.
  induction labels as [|label [|next labels] IH]; [done| |]; intros _ Hplain.
  - apply Forall_cons in Hplain as [Hlabel _]. simpl.
    rewrite <-(app_empty_r label) at 1.
    rewrite words_between_bars_word by done. simpl.
    change (String.rev_app label "") with (String.rev label).
    by rewrite rev_involutive.
  - apply Forall_cons in Hplain as [Hlabel Hrest].
    change (Array_join "|" (label :: next :: labels))
      with (label +:+ "|" +:+ Array_join "|" (next :: labels)).
    rewrite words_between_bars_word by done.
    change ("|" +:+ ?x) with (String "|" x).
    rewrite words_between_bars_bar, IH by done.
    change (String.rev_app label "") with (String.rev label).
    by rewrite rev_involutive.
Qed.

Lemma alternatives_join (labels : list string) :
  labels ≠ [] →
  Forall (λ label, plain_word label = true) labels →
  PlainWords.alternatives ("(" +:+ Array_join "|" labels +:+ ")") = Some labels.
Proof.
  intros Hsome Hplain. unfold PlainWords.alternatives.
  change ("(" +:+ ?x) with (String "(" x).
  unfold String.rev at 1. rewrite rev_app_app. simpl.
  fold (String.rev (Array_join "|" labels)). rewrite rev_involutive.
  by apply words_between_bars_join.
Qed.

Lemma join_empty (labels : list string) :
  Array_join "|" labels = "" → labels = [] ∨ labels = [""].
Proof.
  destruct labels as [|label [|next labels]]; simpl.
  - by left.
  - intros ->. by right.
  - by destruct label.
Qed.

Lemma contains_ci_empty (text : string) : contains_ci "" text = true.
Proof. by destruct text. Qed.


Section Filters.
Context `{!VideoInfoProvider, !PlaylistInfoProvider, !RegExpEngine, !Constants}.

(** X6. When neither the default selector nor the caller's selector
    has an enabled flag, the quality filter returns the formats it was
    given, for every regular-expression engine. *)
Theorem no_enabled_flag_no_filter (formats : list FormatRecord)
    (qualitys : option (Object bool)) :
  (∀ label enabled, (label, enabled) ∈ D_Q → enabled = false) →
  (∀ label enabled, (label, enabled) ∈ default [] qualitys → enabled = false) →
  filter_formats_by_qualitys formats qualitys = Normal formats.
Proof.
  intros Hdefault Hcaller.
  apply QualityFacts.filter_formats_by_qualitys_none_enabled.
  by apply QualityFacts.enabled_qualities_no_flag.
Qed.

End Filters.

Section PlainWordsFilter.
Context `{!Constants}.

(** X7. On the engine for plain words, for a selector whose enabled
    labels are made of letters and digits, the quality filter returns
    records only among those whose title contains an enabled label, in
    their order, and its first record is the first such record. *)
Theorem quality_filter_sound_on_plain_words (formats : list FormatRecord)
    (qualitys : option (Object bool)) :
  Forall (λ label, plain_word label = true) (enabled_qualities qualitys) →
  ∃ kept,
    filter_formats_by_qualitys (H0 := PlainWords.engine) formats qualitys
    = Normal kept
    ∧ kept `sublist_of` quality_filter_spec formats qualitys
    ∧ head kept = head (quality_filter_spec formats qualitys).
Proof.
  intros Hplain. unfold filter_formats_by_qualitys, quality_filter_spec.
  case_bool_decide as Hjoin.
  - exists formats. split; [done|].
    apply join_empty in Hjoin as [-> | ->]; [done|].
    assert (filter (λ format, title_matches [""] (title format)) formats = formats)
      as ->; [|done].
    clear. induction formats as [|format formats IH]; [done|].
    rewrite filter_cons, decide_True, IH; [done|].
    unfold title_matches. simpl. by rewrite contains_ci_empty.
  - destruct (enabled_qualities qualitys) as [|label labels] eqn:Hlabels; [done|].
    unfold RegExp_new, PlainWords.engine.
    rewrite alternatives_join by done. simpl.
    eexists. split; [done|]. split.
    + apply QualityFacts.filter_test_within_spec.
    + apply QualityFacts.filter_test_first_spec.
Qed.

End PlainWordsFilter.


Section Assembler.
Context `{!VideoInfoProvider, !PlaylistInfoProvider, !RegExpEngine, !Constants}.

Lemma filtered_formats_fetched (url_ : string) (VideoNumber : Ordinal)
    (types : Value) (qualitys : option (Object bool)) (info : RawVideoInfo.t) :
  ytdl_getInfo url_ = Normal info →
  filtered_formats url_ VideoNumber types qualitys
  = kept ←
      filter_formats_by_qualitys
        (filter_formats_by_types
           (prepare_formats (RawVideoInfo.formats info) VideoNumber
              (VideoDetails.title (RawVideoInfo.videoDetails info)))
           types)
        qualitys;
    Normal (RawVideoInfo.videoDetails info, kept).
Proof. intros Hinfo. unfold filtered_formats. by rewrite Hinfo. Qed.

(** X8. A [VideoDataType] that is [text] up to letter case and
    surrounding white space makes [getInfo] return the text form of
    exactly the object that it returns by default, with the same error
    flag and message; every other [VideoDataType] gives the default
    result. *)
Theorem getInfo_text_serializes_json (url_ : string) (VideoNumber : option Ordinal)
    (VideoDataType : string) (types : option Value)
    (qualitys : option (Object bool)) :
  let json :=
    getInfo url_
      {| Video.VideoNumber := VideoNumber; Video.VideoDataType := None;
         Video.types := types; Video.qualitys := qualitys |} in
  let response :=
    getInfo url_
      {| Video.VideoNumber := VideoNumber;
         Video.VideoDataType := Some VideoDataType;
         Video.types := types; Video.qualitys := qualitys |} in
  (toLowerCase (trim VideoDataType) = "text" →
   response
   = {| data := text_of <$> data json; err := err json; err_msg := err_msg json |})
  ∧ (toLowerCase (trim VideoDataType) ≠ "text" → response = json).
Proof.
  unfold getInfo. simpl.
  destruct (filtered_formats _ _ _ _) as [[details formats]|message]; simpl.
  - split.
    + intros ->. by repeat case_bool_decide.
    + intros Hother. repeat case_bool_decide; try done; congruence.
  - by split.
Qed.

(** X9. When the provider fails on a URL with the message [cause],
    [getInfo] returns the error [Failed to get video info: <cause>], and
    [getDownloadLink] returns the error that wraps this message once more
    with the ordinal and the URL. *)
Theorem provider_failure_is_wrapped (videoUrl cause : string)
    (options : GetInfoOptions) (videoNumber : option Z) (types : Value)
    (qualitys : option (Object bool)) :
  ytdl_getInfo videoUrl = Throw cause →
  getInfo videoUrl options = failure ("Failed to get video info: " +:+ cause)
  ∧ getDownloadLink videoUrl videoNumber types qualitys
    = failure ("ERROR: In Get Download Link | N: "
               +:+ String_of_Z (default 1 videoNumber) +:+ " | url: " +:+ videoUrl
               +:+ " | ERROR MESSAGE: Failed to get video info: " +:+ cause).
Proof.
  intros Hfail. split.
  - unfold getInfo, filtered_formats. by rewrite Hfail.
  - rewrite AssemblerFacts.getDownloadLink_cases. unfold filtered_formats.
    rewrite Hfail. simpl. unfold contextInfo, number_of.
    by rewrite !app_assoc.
Qed.

(** X10. When a quality label is enabled and the regular-expression
    constructor rejects the pattern built from the enabled labels,
    [getInfo] fails with the constructor's message although the provider
    succeeded. *)
Theorem rejected_pattern_fails_getInfo (url_ message : string)
    (info : RawVideoInfo.t) (options : GetInfoOptions) :
  let labels :=
    Array_join "|" (enabled_qualities (Some (default D_Q (Video.qualitys options)))) in
  ytdl_getInfo url_ = Normal info →
  labels ≠ "" →
  RegExp_new ("(" +:+ labels +:+ ")") "gi" = Throw message →
  getInfo url_ options = failure ("Failed to get video info: " +:+ message).
Proof.
  intros labels Hinfo Hsome Hthrow.
  unfold getInfo, filtered_formats, filter_formats_by_qualitys.
  rewrite Hinfo. simpl. fold labels.
  rewrite (bool_decide_eq_false_2 (labels = "")) by done. by rewrite Hthrow.
Qed.

(** X11. A [types] argument of [getDownloadLink] that is neither
    [undefined] nor an array turns the type filter off: the link is the
    URL of the first record that the quality filter keeps among all built
    records, whatever their type. *)
Theorem types_not_array_skips_type_filter (videoUrl : string) (n : Z)
    (types : Value) (qualitys : option (Object bool)) (info : RawVideoInfo.t)
    (kept : list FormatRecord) :
  ytdl_getInfo videoUrl = Normal info →
  types ≠ VUndefined →
  (∀ elements, types ≠ VArray elements) →
  filter_formats_by_qualitys
    (prepare_formats (RawVideoInfo.formats info) (Number n)
       (VideoDetails.title (RawVideoInfo.videoDetails info)))
    (Some (default [] qualitys))
  = Normal kept →
  getDownloadLink videoUrl (Some n) types qualitys
  = success
      match kept with
      | [] => "No download link found | N: " +:+ String_of_Z n +:+ " | url: "
              +:+ videoUrl
      | first :: _ => url first
      end.
Proof.
  intros Hinfo Hdefined Hnot Hkept.
  rewrite AssemblerFacts.getDownloadLink_cases.
  rewrite (filtered_formats_fetched _ _ _ _ info) by done.
  change (number_of (Some n)) with n.
  assert (filter_formats_by_types
            (prepare_formats (RawVideoInfo.formats info) (Number n)
               (VideoDetails.title (RawVideoInfo.videoDetails info)))
            (types_of types)
          = prepare_formats (RawVideoInfo.formats info) (Number n)
              (VideoDetails.title (RawVideoInfo.videoDetails info))) as ->.
  { destruct types; try done. by destruct (Hnot elements). }
  unfold qualitys_of.
  match goal with
  | |- match ?c ≫= _ with _ => _ end = _ =>
      assert (c = Normal kept) as -> by exact Hkept
  end.
  by destruct kept.
Qed.

(** X12. With the default [types] and no quality label enabled,
    [getDownloadLink] answers [No download link found] for a video none of
    whose formats has both a quality label and audio, although the
    provider returned formats. *)
Theorem no_combined_format_no_link (videoUrl : string) (videoNumber : option Z)
    (qualitys : option (Object bool)) (info : RawVideoInfo.t) :
  ytdl_getInfo videoUrl = Normal info →
  (∀ format, format ∈ RawVideoInfo.formats info →
     RawFormat.hasAudio format = false
     ∨ RawFormat.qualityLabel format = Null
     ∨ RawFormat.qualityLabel format = Undefined) →
  enabled_qualities (Some (default [] qualitys)) = [] →
  getDownloadLink videoUrl videoNumber VUndefined qualitys
  = success ("No download link found | N: " +:+ String_of_Z (default 1 videoNumber)
             +:+ " | url: " +:+ videoUrl).
Proof.
  intros Hinfo Hsplit Hnone.
  rewrite AssemblerFacts.getDownloadLink_cases.
  rewrite (filtered_formats_fetched _ _ _ _ info) by done.
  rewrite QualityFacts.filter_formats_by_qualitys_none_enabled by done. simpl.
  rewrite QualityFacts.filter_none; [done|].
  intros record Hin. apply BuilderFacts.elem_of_prepare_formats in Hin
    as (format & mime & Hformat & Hmime & ->).
  pose proof (Hsplit format Hformat) as Hcase.
  unfold types_of, includes. simpl.
  destruct (RawFormat.qualityLabel format) as [| |label],
    (RawFormat.hasAudio format); simpl; try (by intros []).
  destruct Hcase as [? | [? | ?]]; done.
Qed.

(** X13. Every record that [getInfo] returns is built from a
    descriptor of the provider that has a [mimeType], and when the
    resolved [types] is an array, the record's type is one of its
    elements. *)
Theorem getInfo_records_pass_the_filters (url_ : string)
    (options : GetInfoOptions) (id title video_url : string)
    (formats : list FormatRecord) (record : FormatRecord) :
  data (getInfo url_ options) = Some (VideoObject id title video_url formats) →
  record ∈ formats →
  ∃ info,
    ytdl_getInfo url_ = Normal info
    ∧ (∃ format mime,
         format ∈ RawVideoInfo.formats info
         ∧ RawFormat.mimeType format = Some mime
         ∧ record
           = prepare_format (default (Number 1) (VideoNumber options))
               (sanitize (VideoDetails.title (RawVideoInfo.videoDetails info)))
               format mime)
    ∧ (∀ elements,
         default (VArray ALL_TYPES) (Video.types options) = VArray elements →
         VString (type record) ∈ elements).
Proof.
  unfold getInfo.
  destruct (ytdl_getInfo url_) as [info|cause] eqn:Hinfo;
    [|unfold filtered_formats; by rewrite Hinfo].
  rewrite (filtered_formats_fetched _ _ _ _ info) by done.
  destruct (filter_formats_by_qualitys _ _) as [kept|] eqn:Hkept; simpl; [|done].
  intros Hdata Hrecord.
  assert (formats = kept) as -> by (by case_bool_decide; simplify_eq).
  apply QualityFacts.filter_formats_by_qualitys_sublist in Hkept.
  pose proof (elem_of_sublist _ _ _ Hrecord Hkept) as Hin.
  exists info. split; [done|]. split.
  - apply BuilderFacts.elem_of_prepare_formats.
    destruct (default (VArray ALL_TYPES) (Video.types options)); try done.
    simpl in Hin. by apply list_elem_of_filter in Hin as [_ Hin].
  - intros elements Htypes. rewrite Htypes in Hin. simpl in Hin.
    apply list_elem_of_filter in Hin as [Hincluded _].
    by apply BuilderFacts.includes_elem_of, Is_true_true.
Qed.

End Assembler.

Import Scenario.

Lemma sanitize_safe_witness : sanitize "a b" = "a b".
Proof.
  apply (sanitize_safe "a b"). intros c Hc. simpl in Hc.
  repeat (apply elem_of_cons in Hc as [-> | Hc]; [reflexivity|]).
  by apply elem_of_nil in Hc.
Defined.

Lemma url_without_marker_unchanged_witness :
  url <$> prepare_formats [manifest_descriptor] (Number 1) "title"
  = [RawFormat.url manifest_descriptor].
Proof.
  apply (url_without_marker_unchanged [manifest_descriptor] (Number 1) "title").
  intros format Hin. apply list_elem_of_singleton in Hin as ->. reflexivity.
Defined.

Lemma url_embeds_number_and_title_witness :
  url <$> prepare_formats [mp4_720p_with_audio] (Number 3) "Never/Gonna"
  = ["https://rr1.example/videoplayback/3 - Never~Gonna?itag=22"].
Proof.
  apply (url_embeds_number_and_title mp4_720p_with_audio
           "video/mp4; codecs=avc1.64001F, mp4a.40.2" 3 "Never/Gonna"
           "https://rr1.example" "/videoplayback?" "itag=22");
    try reflexivity.
  intros k Hk. simpl in Hk.
  do 19 (destruct k as [|k]; [reflexivity|]). lia.
Defined.

Lemma title_contains_quality_witness :
  title_matches ["720p"] (title record_with_audio) = true.
Proof.
  apply (title_contains_quality (RawVideoInfo.formats info) (Number 1)
           "Never Gonna Give You Up" record_with_audio "720p" ["720p"]).
  - vm_compute. apply list_elem_of_further, list_elem_of_here.
  - reflexivity.
  - apply list_elem_of_here.
Defined.

Lemma no_enabled_flag_no_filter_witness :
  filter_formats_by_qualitys [record_video_only; record_with_audio]
    (Some disabled_selector)
  = Normal [record_video_only; record_with_audio].
Proof.
  apply no_enabled_flag_no_filter.
  - intros label enabled Hin. cbv [D_Q constants] in Hin.
    repeat (apply elem_of_cons in Hin as [[= _ ->] | Hin]; [reflexivity|]).
    by apply elem_of_nil in Hin.
  - intros label enabled Hin. cbv [default disabled_selector from_option id] in Hin.
    repeat (apply elem_of_cons in Hin as [[= _ ->] | Hin]; [reflexivity|]).
    by apply elem_of_nil in Hin.
Defined.

Lemma quality_filter_sound_on_plain_words_witness :
  ∃ kept,
    filter_formats_by_qualitys [record_video_only; record_with_audio]
      (Some only_720p)
    = Normal kept
    ∧ kept `sublist_of`
        quality_filter_spec [record_video_only; record_with_audio] (Some only_720p)
    ∧ head kept
      = head (quality_filter_spec [record_video_only; record_with_audio]
                (Some only_720p)).
Proof.
  apply (quality_filter_sound_on_plain_words
           [record_video_only; record_with_audio] (Some only_720p)).
  assert (enabled_qualities (Some only_720p) = ["720p"]) as -> by reflexivity.
  repeat constructor.
Defined.

Lemma getInfo_text_serializes_json_witness :
  getInfo watch_url
    {| VideoNumber := None;
       VideoDataType := Some (UTF8 0xA0 +:+ " TEXT" +:+ UTF8 0x2028 +:+ LF);
       Video.types := None; qualitys := None |}
  = {| data := text_of <$> data (getInfo watch_url no_options);
       err := err (getInfo watch_url no_options);
       err_msg := err_msg (getInfo watch_url no_options) |}.
Proof.
  apply (getInfo_text_serializes_json watch_url None
           (UTF8 0xA0 +:+ " TEXT" +:+ UTF8 0x2028 +:+ LF) None None).
  reflexivity.
Defined.

Lemma provider_failure_is_wrapped_witness :
  getInfo "badurl" no_options
  = failure "Failed to get video info: Not a YouTube domain"
  ∧ getDownloadLink "badurl" (Some 4) VUndefined None
    = failure
        "ERROR: In Get Download Link | N: 4 | url: badurl | ERROR MESSAGE: Failed to get video info: Not a YouTube domain".
Proof.
  apply (provider_failure_is_wrapped "badurl" "Not a YouTube domain" no_options
           (Some 4) VUndefined None).
  reflexivity.
Defined.

Lemma rejected_pattern_fails_getInfo_witness :
  getInfo watch_url
    {| VideoNumber := None; VideoDataType := None; Video.types := None;
       qualitys := Some unbalanced_selector |}
  = failure "Failed to get video info: Invalid regular expression: /(()/".
Proof.
  apply (rejected_pattern_fails_getInfo watch_url
           "Invalid regular expression: /(()/" info).
  - reflexivity.
  - vm_compute. discriminate.
  - reflexivity.
Defined.

Lemma types_not_array_skips_type_filter_witness :
  getDownloadLink watch_url (Some 1) VNull None
  = success (url record_video_only).
Proof.
  apply (types_not_array_skips_type_filter watch_url 1 VNull None info
           [record_video_only; record_with_audio]).
  - reflexivity.
  - discriminate.
  - intros elements. discriminate.
  - reflexivity.
Defined.

Lemma no_combined_format_no_link_witness :
  getDownloadLink (H := split_videos) watch_url None VUndefined None
  = success
      "No download link found | N: 1 | url: https://www.youtube.com/watch?v=dQw4w9WgXcQ".
Proof.
  apply (no_combined_format_no_link (H := split_videos) watch_url None None
           split_info).
  - reflexivity.
  - intros format Hin. cbv [split_info RawVideoInfo.formats] in Hin.
    apply elem_of_cons in Hin as [-> | Hin]; [by left|].
    apply list_elem_of_singleton in Hin as ->. right. by left.
  - reflexivity.
Defined.

Lemma getInfo_records_pass_the_filters_witness :
  ∃ info,
    ytdl_getInfo watch_url = Normal info
    ∧ (∃ format mime,
         format ∈ RawVideoInfo.formats info
         ∧ RawFormat.mimeType format = Some mime
         ∧ record_with_audio
           = prepare_format (Number 1)
               (sanitize (VideoDetails.title (RawVideoInfo.videoDetails info)))
               format mime)
    ∧ (∀ elements,
         VArray ALL_TYPES = VArray elements →
         VString (type record_with_audio) ∈ elements).
Proof.
  apply (getInfo_records_pass_the_filters watch_url no_options "dQw4w9WgXcQ"
           "Never Gonna Give You Up" watch_url
           [record_video_only; record_with_audio] record_with_audio).
  - reflexivity.
  - apply list_elem_of_further, list_elem_of_here.
Defined.

End VideoProperties.

(** ** The merged quality selector *)

Module SelectorProperties.
Import Video.

Lemma Object_set_lookup {V} (key : string) (v : V) (o : Object V) (k : string) (w : V) :
  NoDup o.*1 →
  (k, w) ∈ Object_set key v o ↔ (k = key ∧ w = v) ∨ ((k, w) ∈ o ∧ k ≠ key).
Proof.
  induction o as [|[k' w'] o IH]; simpl; intros Hnodup.
  - rewrite list_elem_of_singleton. split.
    + intros [= -> ->]. by left.
    + intros [[-> ->] | [Hin _]]; [done | by apply elem_of_nil in Hin].
  - apply NoDup_cons in Hnodup as [Hfresh Hnodup].
    case_bool_decide as Hkey.
    + subst k'. rewrite !elem_of_cons. split.
      * intros [[= -> ->] | Hin]; [by left|].
        right. split; [by right|]. intros ->.
        apply Hfresh, list_elem_of_fmap. by exists (key, w).
      * intros [[-> ->] | [[[= -> ->] | Hin] Hne]]; [by left | done | by right].
    + rewrite !elem_of_cons, IH by done. split.
      * intros [[= -> ->] | [[-> ->] | [Hin Hne]]].
        -- right. split; [by left | done].
        -- by left.
        -- right. split; [by right | done].
      * intros [[-> ->] | [[[= -> ->] | Hin] Hne]].
        -- right. by left.
        -- by left.
        -- right. right. by split.
Qed.

Lemma Object_set_keys {V} (key : string) (v : V) (o : Object V) :
  NoDup o.*1 → NoDup (Object_set key v o).*1.
Proof.
  induction o as [|[k' w'] o IH]; simpl; intros Hnodup.
  - apply NoDup_singleton.
  - apply NoDup_cons in Hnodup as [Hfresh Hnodup].
    case_bool_decide as Hkey; csimpl.
    + by apply NoDup_cons.
    + apply NoDup_cons. split; [|by apply IH].
      intros ([k w] & Hk & Hin)%list_elem_of_fmap. simpl in Hk. subst k.
      apply Object_set_lookup in Hin as [[-> _] | [Hin _]]; [done | | done].
      apply Hfresh, list_elem_of_fmap. by exists (k', w).
Qed.

Lemma set_all_lookup {V} (entries acc : Object V) (k : string) (w : V) :
  NoDup entries.*1 → NoDup acc.*1 →
  NoDup (foldl (λ o e, Object_set e.1 e.2 o) acc entries).*1
  ∧ ((k, w) ∈ foldl (λ o e, Object_set e.1 e.2 o) acc entries
     ↔ (k, w) ∈ entries ∨ ((k, w) ∈ acc ∧ k ∉ entries.*1)).
Proof.
  revert acc. induction entries as [|[k0 v0] entries IH]; intros acc Hentries Hacc.
  - simpl. split; [done|]. split.
    + intros Hin. right. split; [done|]. by intros ?%elem_of_nil.
    + intros [Hin | [Hin _]]; [by apply elem_of_nil in Hin | done].
  - csimpl in Hentries. apply NoDup_cons in Hentries as [Hfresh Hentries].
    simpl. destruct (IH (Object_set k0 v0 acc) Hentries (Object_set_keys _ _ _ Hacc))
      as [Hkeys Hlookup].
    split; [done|]. rewrite Hlookup, Object_set_lookup by done.
    rewrite !elem_of_cons.
    change (list_fmap _ _ fst entries) with (entries.*1). split.
    + intros [Hin | [[[-> ->] | [Hin Hne]] Hnot]].
      * left. by right.
      * left. by left.
      * right. split; [done|]. by intros [? | ?].
    + intros [[[= -> ->] | Hin] | [Hin Hnot]].
      * right. split; [by left | done].
      * by left.
      * right. split.
        -- right. split; [done|]. intros ->. apply Hnot. by left.
        -- intros Hlater. apply Hnot. by right.
Qed.

Lemma insert_by_index_perm {V} (n : N) (e : string * V)
    (sorted : list (N * (string * V))) :
  insert_by_index n e sorted ≡ₚ (n, e) :: sorted.
Proof.
  induction sorted as [|[m f] sorted IH]; simpl; [done|].
  destruct (n <? m)%N; [done|]. rewrite IH. apply Permutation_swap.
Qed.

(** [Object.entries] lists each property once. *)
Lemma Object_entries_perm {V} (o : Object V) : Object_entries o ≡ₚ o.
Proof.
  unfold Object_entries.
  rewrite <-(filter_app_complement (λ e, array_index e.1 = None) o) at 3.
  rewrite (Permutation_app_comm (filter _ o)). apply Permutation_app; [|done].
  induction o as [|f o IH]; [done|]. simpl. rewrite filter_cons.
  destruct (array_index f.1) as [n|] eqn:Hindex.
  - rewrite decide_True by done. rewrite insert_by_index_perm. csimpl.
    by rewrite IH.
  - rewrite decide_False by (by intros []). apply IH.
Qed.

Section Selector.
Context `{!VideoInfoProvider, !PlaylistInfoProvider, !RegExpEngine, !Constants}.

(** X14. The caller's quality flags override the defaults: with no
    repeated key in either object, a label is enabled exactly when the
    caller's selector has it with the flag [true], or the caller's
    selector does not have it and the default has it with the flag
    [true]. *)
Theorem caller_flags_override_default (qualitys : option (Object bool))
    (label : string) :
  NoDup D_Q.*1 →
  NoDup (default [] qualitys).*1 →
  label ∈ enabled_qualities qualitys
  ↔ (label, true) ∈ default [] qualitys
    ∨ ((label, true) ∈ D_Q ∧ label ∉ (default [] qualitys).*1).
Proof.
  intros Hdefault Hcaller. unfold enabled_qualities, Object_spread.
  set (caller := default [] qualitys) in *.
  rewrite foldl_app.
  assert (Hea : NoDup (Object_entries D_Q).*1) by by rewrite Object_entries_perm.
  assert (Heb : NoDup (Object_entries caller).*1) by by rewrite Object_entries_perm.
  destruct (set_all_lookup (Object_entries D_Q) [] label true Hea (NoDup_nil_2))
    as [Hkeys Hfirst].
  destruct (set_all_lookup (Object_entries caller) _ label true Heb Hkeys)
    as [_ Hsecond].
  rewrite list_elem_of_fmap.
  transitivity ((label, true)
    ∈ foldl (λ o e, Object_set e.1 e.2 o)
        (foldl (λ o e, Object_set e.1 e.2 o) [] (Object_entries D_Q))
        (Object_entries caller)).
  - split.
    + intros ([k enabled] & -> & [Henabled Hin]%list_elem_of_filter).
      simpl in *. subst enabled. by rewrite Object_entries_perm in Hin.
    + intros Hin. exists (label, true). split; [done|].
      apply list_elem_of_filter. split; [done|]. by rewrite Object_entries_perm.
  - rewrite Hsecond, Hfirst, !Object_entries_perm. split.
    + intros [Hin | [[Hin | [Hin _]] Hnot]]; [by left | by right|].
      by apply elem_of_nil in Hin.
    + intros [Hin | [Hin Hnot]]; [by left|]. right. split; [by left | done].
Qed.

End Selector.

Import Scenario.

Lemma caller_flags_override_default_witness :
  "720p" ∈ enabled_qualities (Some only_720p)
  ↔ ("720p", true) ∈ only_720p
    ∨ (("720p", true) ∈ D_Q ∧ "720p" ∉ only_720p.*1).
Proof.
  apply (caller_flags_override_default (Some only_720p) "720p").
  - apply (bool_decide_unpack (NoDup (D_Q.*1))). vm_compute. exact I.
  - apply (bool_decide_unpack (NoDup (only_720p.*1))). vm_compute. exact I.
Defined.

End SelectorProperties.

(** ** Playlists, beyond the claims *)

Module PlaylistProperties.
Import Playlist StringFacts.

Lemma key_of_inj (i j : nat) : key_of i = key_of j → i = j.
Proof. intros Heq%String_of_Z_inj. lia. Qed.

Lemma add_videos_other (index : nat) (items : list RawItem.t)
    (videos : gmap string PlaylistVideo) (key : string) :
  (∀ i, (i < length items)%nat → key ≠ key_of (index + i)) →
  add_videos index items videos !! key = videos !! key.
Proof.
  revert index videos. induction items as [|video rest IH]; intros index videos Hother;
    [done|].
  simpl. rewrite IH.
  - apply lookup_insert_ne. specialize (Hother O). rewrite Nat.add_0_r in Hother.
    intros Heq. apply Hother; [simpl; lia | done].
  - intros i Hi. replace (S index + i)%nat with (index + S i)%nat by lia.
    apply Hother. simpl. lia.
Qed.

Lemma add_videos_lookup (index : nat) (items : list RawItem.t)
    (videos : gmap string PlaylistVideo) (i : nat) (video : RawItem.t) :
  items !! i = Some video →
  add_videos index items videos !! key_of (index + i) = Some (entry_of_item video).
Proof.
  revert index videos i. induction items as [|first rest IH];
    intros index videos [|i] Hitem; simplify_eq/=.
  - rewrite Nat.add_0_r, add_videos_other.
    + apply lookup_insert_eq.
    + intros j Hj Heq%key_of_inj. lia.
  - replace (index + S i)%nat with (S index + i)%nat by lia. by apply IH.
Qed.

(** [Object.entries] lists every property. *)
Lemma insert_by_index_elem_2 {V} (n : N) (e : string * V)
    (sorted : list (N * (string * V))) (x : N * (string * V)) :
  x = (n, e) ∨ x ∈ sorted → x ∈ insert_by_index n e sorted.
Proof.
  induction sorted as [|[m f] sorted IH]; simpl.
  - intros [-> | Hin]; [apply list_elem_of_here | by apply elem_of_nil in Hin].
  - destruct (n <? m)%N.
    + intros [-> | Hin]; [apply list_elem_of_here | by apply list_elem_of_further].
    + intros [-> | [-> | Hin]%elem_of_cons].
      * apply list_elem_of_further, IH. by left.
      * apply list_elem_of_here.
      * apply list_elem_of_further, IH. by right.
Qed.

Lemma Object_entries_elem_2 {V} (o : Object V) (e : string * V) :
  e ∈ o → e ∈ Object_entries o.
Proof.
  intros Hin. unfold Object_entries. apply elem_of_app.
  destruct (array_index e.1) as [n|] eqn:Hindex.
  - left. apply list_elem_of_fmap. exists (n, e). split; [done|].
    induction o as [|f o IH]; [by apply elem_of_nil in Hin|].
    simpl. apply elem_of_cons in Hin as [<- | Hin].
    + rewrite Hindex. apply insert_by_index_elem_2. by left.
    + destruct (array_index f.1); [|by apply IH].
      apply insert_by_index_elem_2. right. by apply IH.
  - right. by apply list_elem_of_filter.
Qed.

Section Playlists.
Context `{!VideoInfoProvider, !PlaylistInfoProvider, !RegExpEngine, !Constants}.

(** One turn of the loop of [#add_download_links]. *)
Lemma add_download_links_fold (snapshot : gmap string PlaylistVideo)
    (entries : list (string * PlaylistVideo)) (videos : gmap string PlaylistVideo)
    (key : string) (video : PlaylistVideo) :
  snapshot !! key = Some video →
  (∀ entry, entry ∈ entries → snapshot !! entry.1 = Some entry.2) →
  videos !! key = Some video
  ∨ videos !! key = Some (with_formats (formats_of_entry key video) video) →
  key ∈ entries.*1
  ∨ videos !! key = Some (with_formats (formats_of_entry key video) video) →
  foldl (λ videos entry,
           alter (with_formats (formats_of_entry entry.1 entry.2)) entry.1 videos)
        videos entries !! key
  = Some (with_formats (formats_of_entry key video) video).
Proof.
  intros Hsnapshot. revert videos.
  induction entries as [|[k v] entries IH]; intros videos Hentries Hstate Hseen.
  - destruct Hseen as [Hin | Hdone]; [by apply elem_of_nil in Hin | done].
  - simpl. apply IH.
    + intros entry Hin. by apply Hentries, list_elem_of_further.
    + destruct (decide (k = key)) as [-> | Hother].
      * right. rewrite lookup_alter_eq.
        pose proof (Hentries (key, v) (list_elem_of_here _ _)) as Hv.
        simpl in Hv. rewrite Hsnapshot in Hv. injection Hv as <-.
        by destruct Hstate as [-> | ->].
      * by rewrite lookup_alter_ne.
    + destruct (decide (k = key)) as [-> | Hother].
      * right. rewrite lookup_alter_eq.
        pose proof (Hentries (key, v) (list_elem_of_here _ _)) as Hv.
        simpl in Hv. rewrite Hsnapshot in Hv. injection Hv as <-.
        by destruct Hstate as [-> | ->].
      * rewrite lookup_alter_ne by done.
        destruct Hseen as [[Heq | Hin]%elem_of_cons | Hdone];
          [by destruct Hother | by left | by right].
Qed.

Lemma add_download_links_fold_none (entries : list (string * PlaylistVideo))
    (videos : gmap string PlaylistVideo) (key : string) :
  videos !! key = None →
  foldl (λ videos entry,
           alter (with_formats (formats_of_entry entry.1 entry.2)) entry.1 videos)
        videos entries !! key
  = None.
Proof.
  revert videos. induction entries as [|[k v] entries IH]; intros videos Hnone;
    [done|].
  simpl. apply IH. destruct (decide (k = key)) as [-> | Hother].
  - by rewrite lookup_alter_eq, Hnone.
  - by rewrite lookup_alter_ne.
Qed.

Lemma add_download_links_lookup (PlaylistData : PlaylistData.t) (key : string) :
  PlaylistData.videos (add_download_links PlaylistData) !! key
  = (λ video, with_formats (formats_of_entry key video) video)
    <$> PlaylistData.videos PlaylistData !! key.
Proof.
  unfold add_download_links. simpl.
  destruct (PlaylistData.videos PlaylistData !! key) as [video|] eqn:Hkey; simpl.
  - apply (add_download_links_fold (PlaylistData.videos PlaylistData)); try done.
    + intros [k v] Hin%QualityFacts.Object_entries_elem.
      by apply elem_of_map_to_list in Hin.
    + by left.
    + left. apply list_elem_of_fmap. exists (key, video). split; [done|].
      by apply Object_entries_elem_2, elem_of_map_to_list.
  - by apply add_download_links_fold_none.
Qed.

(** X15. [Playlist.getInfo] numbers the entries from 1: the entry under
    the key [i + 1] is made of the item of index [i], [number_videos] is
    the number of items, and there is no entry under an ordinal below 1
    or above the number of items. *)
Theorem getInfo_numbers_entries_from_one (url_ : string) (raw : RawPlaylist.t) :
  ytpl url_ (Some (VString "Infinity")) = Normal raw →
  ∃ PlaylistData,
    getInfo url_ false = success PlaylistData
    ∧ PlaylistData.number_videos PlaylistData = length (RawPlaylist.items raw)
    ∧ (∀ i video,
         RawPlaylist.items raw !! i = Some video →
         PlaylistData.videos PlaylistData !! String_of_Z (Z.of_nat i + 1)
         = Some (entry_of_item video))
    ∧ (∀ n,
         n < 1 ∨ Z.of_nat (length (RawPlaylist.items raw)) < n →
         PlaylistData.videos PlaylistData !! String_of_Z n = None).
Proof.
  intros Hraw. unfold getInfo. rewrite Hraw. simpl. eexists.
  split; [done|]. simpl. split; [done|]. split.
  - intros i video Hitem. by apply (add_videos_lookup 0).
  - intros n Hn. rewrite add_videos_other; [done|].
    intros i Hi Heq%String_of_Z_inj. lia.
Qed.


(** X16. With download links, [Playlist.getInfo] succeeds whatever the
    video provider does, keeps the id, title and URL of every entry, and
    stores in its [formats] the records that [Video.getInfo] returns for
    the entry's URL, or the text [Error in Get Video Info | ERROR MESSAGE:
    Failed to get video info: <cause>] when the provider fails on it. *)
Theorem getInfo_attaches_formats (url_ : string) (raw : RawPlaylist.t) :
  ytpl url_ (Some (VString "Infinity")) = Normal raw →
  ∃ PlaylistData,
    getInfo url_ true = success PlaylistData
    ∧ ∀ i video,
        RawPlaylist.items raw !! i = Some video →
        let key := String_of_Z (Z.of_nat i + 1) in
        let response :=
          Video.getInfo (RawItem.url video)
            {| Video.VideoNumber := Some (Video.Key key);
               Video.VideoDataType := None; Video.types := None;
               Video.qualitys := None |} in
        ∃ formats,
          PlaylistData.videos PlaylistData !! key
          = Some (with_formats formats (entry_of_item video))
          ∧ (∀ id title video_url records,
               data response = Some (Video.VideoObject id title video_url records) →
               formats = Formats records)
          ∧ (∀ cause,
               ytdl_getInfo (RawItem.url video) = Throw cause →
               formats
               = FormatsError
                   ("Error in Get Video Info | ERROR MESSAGE: "
                    +:+ "Failed to get video info: " +:+ cause)).
Proof.
  intros Hraw. unfold getInfo. rewrite Hraw. simpl. eexists. split; [done|].
  intros i video Hitem.
  set (key := String_of_Z (Z.of_nat i + 1)).
  set (response := Video.getInfo (RawItem.url video) _).
  exists (formats_of_entry key (entry_of_item video)). split; [|split].
  - rewrite add_download_links_lookup. simpl.
    by rewrite (add_videos_lookup 0 _ _ i video).
  - intros id title video_url records Hdata. unfold formats_of_entry. simpl.
    fold response. rewrite Hdata.
    destruct (err response) eqn:Herr; [|done].
    destruct (EnvelopeFacts.Video_getInfo_invariant (RawItem.url video)
                {| Video.VideoNumber := Some (Video.Key key);
                   Video.VideoDataType := None; Video.types := None;
                   Video.qualitys := None |}) as [Herror _].
    fold response in Herror. destruct (Herror Herr) as [Hnone _]. congruence.
  - intros cause Hcause. unfold formats_of_entry. simpl.
    unfold Video.getInfo, Video.filtered_formats. by rewrite Hcause.
Qed.

(** The range validator behind the provider. *)
Lemma prepare_from_to_counted (url_ : string) (from to : RangeArg)
    (counted : RawPlaylist.t) :
  ytpl url_ None = Normal counted →
  prepare_from_to url_ from to
  = prepareRange (RawPlaylist.estimatedItemCount counted) from to.
Proof. intros Hcount. unfold prepare_from_to, numberVideo. by rewrite Hcount. Qed.

Lemma link_of_fetched (items : list RawItem.t) (types : Value)
    (qualitys : Object bool) (videoIndex : Z) :
  1 ≤ videoIndex →
  link_of (add_videos 0 items ∅) types qualitys videoIndex
  = link_of_items items types qualitys videoIndex.
Proof.
  intros Hpositive. unfold link_of, link_of_items.
  replace videoIndex with (Z.of_nat (Z.to_nat (videoIndex - 1)) + 1) at 1 by lia.
  destruct (items !! Z.to_nat (videoIndex - 1)) as [video|] eqn:Hitem.
  - rewrite (add_videos_lookup 0 _ _ _ video Hitem). simpl.
    case_bool_decide as Hurl; [by rewrite Hurl|].
    by destruct (RawItem.url video).
  - rewrite (add_videos_other 0); [done|].
    intros i Hi Heq%String_of_Z_inj.
    apply lookup_ge_None in Hitem. simpl in Heq. lia.
Qed.

(** X18. In array mode, for a valid range and a fetched playlist,
    [getDownloadsLinks] returns [to - from + 1] slots; the slot of index
    [k] is for the ordinal [from + k]: the placeholder when the playlist
    has no such item or its URL is empty, the response of
    [Video.getDownloadLink] for the item's URL, that ordinal and the given
    filters otherwise. *)
Theorem getDownloadsLinks_array_slots (url_ : string)
    (options : GetDownloadsLinksOptions) (counted raw : RawPlaylist.t) :
  let count := RawPlaylist.estimatedItemCount counted in
  let from := normalize (default RNull (opt_from options)) 1 in
  let to := normalize (default RNull (opt_to options)) count in
  let types := default (VArray [VString "video and audio"]) (types options) in
  let qualitys := default D_Q (qualitys options) in
  ytpl url_ None = Normal counted →
  ytpl url_ (Some (VString "Infinity")) = Normal raw →
  1 ≤ from ≤ to ∧ to ≤ count →
  response_format options ≠ "text" →
  ∃ links,
    getDownloadsLinks url_ options = success (LinksArray links)
    ∧ Z.of_nat (length links) = to - from + 1
    ∧ ∀ k, (k < length links)%nat →
        links !! k
        = Some (link_of_items (RawPlaylist.items raw) types qualitys
                  (from + Z.of_nat k)).
Proof.
  intros count from to types qualitys Hcount Hraw Hrange Hmode.
  unfold getDownloadsLinks.
  rewrite (prepare_from_to_counted _ _ _ counted) by done.
  rewrite RangeFacts.prepareRange_valid by (fold count from to; lia).
  simpl. unfold getInfo. rewrite Hraw. simpl.
  fold (response_format options).
  assert ((if bool_decide (response_format options = "") then "json"
           else response_format options) ≠ "text") as Hformat.
  { by case_bool_decide. }
  rewrite (bool_decide_eq_false_2 _ Hformat).
  rewrite OrchestratorFacts.download_loop_array. simpl.
  eexists. split; [done|]. fold count from to types qualitys.
  rewrite length_fmap, length_seqZ. split; [lia|].
  intros k Hk. rewrite list_lookup_fmap, lookup_seqZ_lt by lia. simpl.
  by rewrite link_of_fetched by lia.
Qed.


Lemma lines_text_fold {A} (line : A → string) (text : string) (xs : list A) :
  foldl (λ text x, text +:+ line x +:+ LF) text xs
  = text +:+ lines_text (line <$> xs).
Proof.
  revert text. induction xs as [|x xs IH]; intros text; simpl.
  - by rewrite app_empty_r.
  - rewrite IH. by rewrite !app_assoc.
Qed.

(** X19. In text mode, for a valid range and a fetched playlist,
    [getDownloadsLinks] returns [to - from + 1] lines, each ended by a
    line feed; every line is [[object Object]] or the placeholder of its
    ordinal, never a URL. *)
Theorem getDownloadsLinks_text_lines (url_ : string)
    (options : GetDownloadsLinksOptions) (counted raw : RawPlaylist.t) :
  let count := RawPlaylist.estimatedItemCount counted in
  let from := normalize (default RNull (opt_from options)) 1 in
  let to := normalize (default RNull (opt_to options)) count in
  ytpl url_ None = Normal counted →
  ytpl url_ (Some (VString "Infinity")) = Normal raw →
  1 ≤ from ≤ to ∧ to ≤ count →
  response_format options = "text" →
  ∃ lines,
    getDownloadsLinks url_ options = success (LinksText (lines_text lines))
    ∧ Z.of_nat (length lines) = to - from + 1
    ∧ ∀ k line, lines !! k = Some line →
        line = "[object Object]" ∨ line = placeholder (from + Z.of_nat k).
Proof.
  intros count from to Hcount Hraw Hrange Hmode.
  unfold getDownloadsLinks.
  rewrite (prepare_from_to_counted _ _ _ counted) by done.
  rewrite RangeFacts.prepareRange_valid by (fold count from to; lia).
  simpl. unfold getInfo. rewrite Hraw. simpl.
  fold (response_format options). rewrite Hmode. simpl.
  rewrite OrchestratorFacts.download_loop_text, lines_text_fold.
  match goal with |- context [lines_text ?l] => exists l end.
  split; [done|]. fold count from to.
  rewrite length_fmap, length_seqZ. split; [lia|].
  intros k line Hline. apply list_lookup_fmap_Some in Hline as (i & -> & Hi).
  apply lookup_seqZ in Hi as [-> _].
  unfold link_of.
  destruct (video_url <$> _) as [[|c rest]|]; simpl; auto.
Qed.

(** X17. [getDownloadsLinks] returns the error [Error in Get Number
    Videos in Playlist | ERROR MESSAGE: <cause>] when the count cannot be
    fetched, and [Error in download playlist data: Failed to get playlist
    info: <cause>] when the range is valid and the entries cannot be
    fetched. *)
Theorem getDownloadsLinks_provider_failures (url_ cause : string)
    (options : GetDownloadsLinksOptions) :
  (ytpl url_ None = Throw cause →
   getDownloadsLinks url_ options
   = failure ("Error in Get Number Videos in Playlist | ERROR MESSAGE: " +:+ cause))
  ∧ (∀ counted,
       let count := RawPlaylist.estimatedItemCount counted in
       let from := normalize (default RNull (opt_from options)) 1 in
       let to := normalize (default RNull (opt_to options)) count in
       ytpl url_ None = Normal counted →
       1 ≤ from ≤ to ∧ to ≤ count →
       ytpl url_ (Some (VString "Infinity")) = Throw cause →
       getDownloadsLinks url_ options
       = failure ("Error in download playlist data: "
                  +:+ "Failed to get playlist info: " +:+ cause)).
Proof.
  split.
  - intros Hcount. unfold getDownloadsLinks, prepare_from_to, numberVideo.
    by rewrite Hcount.
  - intros counted count from to Hcount Hrange Hraw. unfold getDownloadsLinks.
    rewrite (prepare_from_to_counted _ _ _ counted) by done.
    rewrite RangeFacts.prepareRange_valid by (fold count from to; lia).
    simpl. unfold getInfo. by rewrite Hraw.
Qed.

(** X20. For a playlist whose count is zero or negative every request
    to [getDownloadsLinks] is refused; without range the message is
    [ERROR: From '1' and To '<count>' must be greater than 0]. *)
Theorem empty_playlist_is_refused (url_ : string)
    (options : GetDownloadsLinksOptions) (counted : RawPlaylist.t) :
  ytpl url_ None = Normal counted →
  RawPlaylist.estimatedItemCount counted ≤ 0 →
  err (getDownloadsLinks url_ options) = true
  ∧ data (getDownloadsLinks url_ options) = None
  ∧ getDownloadsLinks url_ no_options
    = failure ("ERROR: From '1' and To '"
               +:+ String_of_Z (RawPlaylist.estimatedItemCount counted)
               +:+ "' must be greater than 0").
Proof.
  intros Hcount Hempty. unfold getDownloadsLinks.
  rewrite !(prepare_from_to_counted _ _ _ counted) by done.
  split; [|split].
  - destruct (succ (prepareRange _ _ _)) eqn:Hsucc; [|done].
    apply RangeFacts.prepareRange_succ in Hsucc. lia.
  - destruct (succ (prepareRange _ _ _)) eqn:Hsucc; [|done].
    apply RangeFacts.prepareRange_succ in Hsucc. lia.
  - simpl. by rewrite RangeFacts.prepareRange_not_positive by (simpl; lia).
Qed.

(** X21. A successful array result of [getDownloadsLinks] has at least
    one slot and at most as many slots as the count of the playlist. *)
Theorem array_result_is_bounded (url_ : string)
    (options : GetDownloadsLinksOptions) (links : list Link) :
  getDownloadsLinks url_ options = success (LinksArray links) →
  ∃ counted,
    ytpl url_ None = Normal counted
    ∧ 1 ≤ Z.of_nat (length links) ≤ RawPlaylist.estimatedItemCount counted.
Proof.
  unfold getDownloadsLinks.
  destruct (ytpl url_ None) as [counted|cause] eqn:Hcount.
  - rewrite (prepare_from_to_counted _ _ _ counted) by done.
    destruct (succ (prepareRange _ _ _)) eqn:Hsucc; [|done].
    apply RangeFacts.prepareRange_succ in Hsucc as Hrange.
    rewrite RangeFacts.prepareRange_valid in * by lia. simpl.
    destruct (err (getInfo url_ false)); simpl; [done|].
    destruct (data (getInfo url_ false)) as [PlaylistData|]; simpl; [|done].
    case_bool_decide.
    + by rewrite OrchestratorFacts.download_loop_text.
    + rewrite OrchestratorFacts.download_loop_array. simpl.
      intros [= <-]. exists counted. split; [done|].
      rewrite length_fmap, length_seqZ. lia.
  - unfold prepare_from_to, numberVideo. by rewrite Hcount.
Qed.

End Playlists.

Import Scenario.

Lemma getInfo_numbers_entries_from_one_witness :
  ∃ PlaylistData,
    getInfo playlist_url false = success PlaylistData
    ∧ PlaylistData.number_videos PlaylistData = 2%nat
    ∧ (∀ i video,
         RawPlaylist.items playlist !! i = Some video →
         PlaylistData.videos PlaylistData !! String_of_Z (Z.of_nat i + 1)
         = Some (entry_of_item video))
    ∧ (∀ n,
         n < 1 ∨ 2 < n →
         PlaylistData.videos PlaylistData !! String_of_Z n = None).
Proof.
  apply (getInfo_numbers_entries_from_one playlist_url playlist). reflexivity.
Defined.

Lemma getInfo_attaches_formats_witness :
  ∃ PlaylistData,
    getInfo playlist_url true = success PlaylistData
    ∧ ∀ i video,
        RawPlaylist.items playlist !! i = Some video →
        ∃ formats,
          PlaylistData.videos PlaylistData !! String_of_Z (Z.of_nat i + 1)
          = Some (with_formats formats (entry_of_item video))
          ∧ (∀ id title video_url records,
               data (Video.getInfo (RawItem.url video)
                       {| Video.VideoNumber :=
                            Some (Video.Key (String_of_Z (Z.of_nat i + 1)));
                          Video.VideoDataType := None; Video.types := None;
                          Video.qualitys := None |})
               = Some (Video.VideoObject id title video_url records) →
               formats = Formats records)
          ∧ (∀ cause,
               ytdl_getInfo (RawItem.url video) = Throw cause →
               formats
               = FormatsError
                   ("Error in Get Video Info | ERROR MESSAGE: "
                    +:+ "Failed to get video info: " +:+ cause)).
Proof.
  apply (getInfo_attaches_formats playlist_url playlist). reflexivity.
Defined.

Lemma getDownloadsLinks_array_slots_witness :
  ∃ links,
    getDownloadsLinks playlist_url first_two = success (LinksArray links)
    ∧ Z.of_nat (length links) = 2
    ∧ ∀ k, (k < length links)%nat →
        links !! k
        = Some (link_of_items (RawPlaylist.items playlist)
                  (VArray [VString "video and audio"]) D_Q (1 + Z.of_nat k)).
Proof.
  apply (getDownloadsLinks_array_slots playlist_url first_two playlist playlist).
  - reflexivity.
  - reflexivity.
  - simpl. lia.
  - vm_compute. discriminate.
Defined.

Lemma getDownloadsLinks_text_lines_witness :
  ∃ lines,
    getDownloadsLinks playlist_url first_two_as_text
    = success (LinksText (lines_text lines))
    ∧ Z.of_nat (length lines) = 2
    ∧ ∀ k line, lines !! k = Some line →
        line = "[object Object]" ∨ line = placeholder (1 + Z.of_nat k).
Proof.
  apply (getDownloadsLinks_text_lines playlist_url first_two_as_text playlist
           playlist).
  - reflexivity.
  - reflexivity.
  - simpl. lia.
  - reflexivity.
Defined.

Lemma getDownloadsLinks_provider_failures_witness :
  getDownloadsLinks unknown_playlist_url first_two
  = failure "Error in Get Number Videos in Playlist | ERROR MESSAGE: Unknown Playlist"
  ∧ getDownloadsLinks (H0 := entries_private) playlist_url first_two
    = failure
        "Error in download playlist data: Failed to get playlist info: This playlist is private.".
Proof.
  split.
  - apply (getDownloadsLinks_provider_failures unknown_playlist_url
             "Unknown Playlist" first_two).
    reflexivity.
  - apply (getDownloadsLinks_provider_failures (H0 := entries_private)
             playlist_url "This playlist is private." first_two)
      with (counted := playlist).
    + reflexivity.
    + simpl. lia.
    + reflexivity.
Defined.

Lemma empty_playlist_is_refused_witness :
  err (getDownloadsLinks (H0 := empty_playlists) playlist_url first_two) = true
  ∧ data (getDownloadsLinks (H0 := empty_playlists) playlist_url first_two) = None
  ∧ getDownloadsLinks (H0 := empty_playlists) playlist_url no_options
    = failure "ERROR: From '1' and To '0' must be greater than 0".
Proof.
  apply (empty_playlist_is_refused (H0 := empty_playlists) playlist_url first_two
           empty_playlist).
  - reflexivity.
  - simpl. lia.
Defined.

Lemma array_result_is_bounded_witness :
  ∃ counted,
    ytpl playlist_url None = Normal counted
    ∧ 1 ≤ 2 ≤ RawPlaylist.estimatedItemCount counted.
Proof.
  apply (array_result_is_bounded playlist_url first_two
           [link_of_items (RawPlaylist.items playlist)
              (VArray [VString "video and audio"]) D_Q 1;
            link_of_items (RawPlaylist.items playlist)
              (VArray [VString "video and audio"]) D_Q 2]).
  reflexivity.
Defined.

End PlaylistProperties.

(** ** Search *)

Module SearchProperties.
Import YoutubeSearch.

Lemma for_each_all {A B} (f : A → Completion B) (g : A → B) (xs : list A) :
  (∀ x, x ∈ xs → f x = Normal (g x)) → for_each f xs = Normal (g <$> xs).
Proof.
  induction xs as [|x xs IH]; intros Hall; [done|].
  simpl. rewrite (Hall x) by apply list_elem_of_here. simpl.
  rewrite IH; [done|]. intros y Hin. by apply Hall, list_elem_of_further.
Qed.

Lemma for_each_first_throw {A B} (f : A → Completion B) (g : A → B)
    (good : list A) (bad : A) (rest : list A) (cause : string) :
  (∀ x, x ∈ good → f x = Normal (g x)) →
  f bad = Throw cause →
  for_each f (good ++ bad :: rest) = Throw cause.
Proof.
  intros Hgood Hbad. induction good as [|x good IH]; simpl.
  - by rewrite Hbad.
  - rewrite (Hgood x) by apply list_elem_of_here. simpl.
    rewrite IH; [done|]. intros y Hin. by apply Hgood, list_elem_of_further.
Qed.

Section Search.
Context `{!VideoInfoProvider, !PlaylistInfoProvider}.
Context {RawResult RawItem VideoItem PlaylistFields PlaylistItem Recommendations : Type}.
Context (ytsr : string → string → option Z → Completion RawResult).
Context (raw_items : RawResult → Completion (list RawItem)).
Context (video_item : RawItem → Completion VideoItem).
Context (playlist_fields : RawItem → Completion PlaylistFields).
Context (playlist_url : PlaylistFields → string).
Context (playlist_item : PlaylistFields → option Z → PlaylistItem).
Context (prepare_results : RawVideoInfo.t → Completion Recommendations).

(** X22. When every playlist of the search result can be read,
    [searchPlaylists] succeeds with one item per playlist, in order; the
    count of a playlist that the playlist provider fails on is [null], and
    the failure does not fail the search. *)
Theorem searchPlaylists_survives_count_failures (query : string)
    (result : RawResult) (playlists : list RawItem)
    (fields : RawItem → PlaylistFields) :
  ytsr query "playlist" None = Normal result →
  raw_items result = Normal playlists →
  (∀ playlist, playlist ∈ playlists →
     playlist_fields playlist = Normal (fields playlist)) →
  ∃ items,
    searchPlaylists ytsr raw_items playlist_fields playlist_url playlist_item query
    = success {| number_items := length playlists; items := items |}
    ∧ length items = length playlists
    ∧ ∀ i playlist,
        playlists !! i = Some playlist →
        ∃ numberVideo,
          items !! i = Some (playlist_item (fields playlist) numberVideo)
          ∧ (∀ cause, ytpl (playlist_url (fields playlist)) None = Throw cause →
             numberVideo = None)
          ∧ (∀ counted,
               ytpl (playlist_url (fields playlist)) None = Normal counted →
               numberVideo = Some (RawPlaylist.estimatedItemCount counted)).
Proof.
  intros Hresult Hitems Hfields. unfold searchPlaylists.
  rewrite Hresult. simpl. rewrite Hitems. simpl.
  rewrite (for_each_all _
             (λ playlist,
                playlist_item (fields playlist)
                  (data (Playlist.numberVideo (playlist_url (fields playlist)))))).
  - simpl. eexists. split; [by rewrite length_fmap|].
    split; [by rewrite length_fmap|].
    intros i playlist Hi. eexists. split; [by rewrite list_lookup_fmap, Hi|].
    unfold Playlist.numberVideo. split.
    + by intros cause ->.
    + by intros counted ->.
  - intros playlist Hin. by rewrite (Hfields playlist Hin).
Qed.

(** X23. [searchVideos] fails as a whole with [Failed to search videos:
    <cause>] when the formatting of an item throws [cause], whatever the
    items before and after it. *)
Theorem searchVideos_stops_at_first_bad_item (query cause : string)
    (result : RawResult) (good : list RawItem) (bad : RawItem)
    (rest : list RawItem) (item : RawItem → VideoItem) :
  ytsr query "video" (Some 100) = Normal result →
  raw_items result = Normal (good ++ bad :: rest) →
  (∀ video, video ∈ good → video_item video = Normal (item video)) →
  video_item bad = Throw cause →
  searchVideos ytsr raw_items video_item query
  = failure ("Failed to search videos: " +:+ cause).
Proof.
  intros Hresult Hitems Hgood Hbad. unfold searchVideos.
  rewrite Hresult. simpl. rewrite Hitems. simpl.
  by rewrite (for_each_first_throw _ item good bad rest cause).
Qed.

(** X24. [videoAndRecommendations] hands on a failure of the video
    provider with the provider's message alone, reports a failure of the
    preparation of the results as [Failed to get video and
    recommendations: <message>], and succeeds with the prepared results
    otherwise. *)
Theorem videoAndRecommendations_messages (url_ : string) :
  (∀ cause,
     ytdl_getInfo url_ = Throw cause →
     videoAndRecommendations prepare_results url_ = failure cause)
  ∧ (∀ info message,
       ytdl_getInfo url_ = Normal info →
       prepare_results info = Throw message →
       videoAndRecommendations prepare_results url_
       = failure ("Failed to get video and recommendations: " +:+ message))
  ∧ (∀ info results,
       ytdl_getInfo url_ = Normal info →
       prepare_results info = Normal results →
       videoAndRecommendations prepare_results url_ = success results).
Proof.
  unfold videoAndRecommendations, Video.main_getInfo. repeat split.
  - by intros cause ->.
  - intros info message -> Hprepare. simpl. by rewrite Hprepare.
  - intros info results -> Hprepare. simpl. by rewrite Hprepare.
Qed.

End Search.

Import Scenario.

Lemma videoAndRecommendations_messages_witness :
  videoAndRecommendations origin_title "badurl" = failure "Not a YouTube domain"
  ∧ videoAndRecommendations no_related_videos watch_url
    = failure
        "Failed to get video and recommendations: Cannot read properties of undefined (reading 'map')"
  ∧ videoAndRecommendations origin_title watch_url
    = success "Never Gonna Give You Up".
Proof.
  split; [|split].
  - apply (videoAndRecommendations_messages origin_title "badurl"). reflexivity.
  - apply (videoAndRecommendations_messages no_related_videos watch_url)
      with (info := info); reflexivity.
  - apply (videoAndRecommendations_messages origin_title watch_url)
      with (info := info); reflexivity.
Defined.

Lemma searchPlaylists_survives_count_failures_witness :
  ∃ items,
    searchPlaylists found_playlists Normal Normal id pair "mix"
    = success {| number_items := 2; items := items |}
    ∧ length items = 2%nat
    ∧ ∀ i playlist,
        [playlist_url; unknown_playlist_url] !! i = Some playlist →
        ∃ numberVideo,
          items !! i = Some (playlist, numberVideo)
          ∧ (∀ cause, ytpl playlist None = Throw cause → numberVideo = None)
          ∧ (∀ counted,
               ytpl playlist None = Normal counted →
               numberVideo = Some (RawPlaylist.estimatedItemCount counted)).
Proof.
  apply (searchPlaylists_survives_count_failures found_playlists Normal Normal id
           pair "mix" [playlist_url; unknown_playlist_url]
           [playlist_url; unknown_playlist_url] id).
  - reflexivity.
  - reflexivity.
  - reflexivity.
Defined.

Lemma searchVideos_stops_at_first_bad_item_witness :
  searchVideos found_videos Normal video_item_of "never gonna"
  = failure
      "Failed to search videos: Cannot destructure property 'name' of 'author' as it is undefined.".
Proof.
  apply (searchVideos_stops_at_first_bad_item found_videos Normal video_item_of
           "never gonna" _ [watch_url; ""; watch_url] [watch_url] "" [watch_url] id).
  - reflexivity.
  - reflexivity.
  - intros video Hin. apply list_elem_of_singleton in Hin as ->. reflexivity.
  - reflexivity.
Defined.

End SearchProperties.
